(** * funcparser: a backtracking parser-combinator toolkit (run.py)

    A shallow embedding of [run.py].  The Python code threads one mutable
    text stream through every call and signals failure with two exception
    classes, [SyntaxError] and [EOFError].  Here a computation is a function
    from the stream state to an outcome and the new stream state; the two
    exception classes are the two constructors of [failure].

    Characters are the code points below 256 (Rocq's [ascii], read as
    Latin-1); Python strings are [string]. *)

From Stdlib Require Import Ascii String List ZArith Arith Bool Lia.
Import ListNotations.
Open Scope string_scope.

(** ** The stream: [io.StringIO] *)

Record stream : Type := mkStream { buffer : string; position : nat }.

(** The text of an exception.  [SyntaxError("...")] with a fixed text is
    [Text]; the three formatted texts keep their arguments. *)
Inductive message : Type :=
| Text (text : string)
    (* a literal message *)
| CouldNotMatch (character : string)
    (* "Could not match {} with the given predicate".format(repr(character)) *)
| ExpectedToMatch (content value : string)
    (* "Expected {} to match {}".format(content, value) *)
| InvalidLiteral (literal : string).
    (* SyntaxError(e) for the ValueError e raised by int(literal) *)

(** [NoMatch] is Python's [SyntaxError], [EndOfInput] is [EOFError]. *)
Inductive failure : Type :=
| NoMatch (msg : message)
| EndOfInput.

(** What a call does: return, raise, or not return at all.  [OutOfFuel] is
    the outcome of a [while True] loop that was cut off; it is not an
    exception and no handler sees it. *)
Inductive outcome (A : Type) : Type :=
| Ok (a : A)
| Raise (f : failure)
| OutOfFuel.
Arguments Ok {A} a.
Arguments Raise {A} f.
Arguments OutOfFuel {A}.

(** Python values the parsers return: [None], an int, a str, a list, and the
    generator object that [one_or_more] hands back ([count] is the local
    variable of the suspended body, [finished] tells that the body has
    ended). *)
#[warnings="-register-all"]
Inductive pyval : Type :=
| VNone
| VInt (z : Z)
| VStr (s : string)
| VList (items : list pyval)
| VGen (parser : stream -> outcome pyval * stream) (count : nat) (finished : bool).

(** ** Computations over the stream *)

Definition M (A : Type) : Type := stream -> outcome A * stream.
Definition Parser : Type := M pyval.

Definition ret {A} (a : A) : M A := fun s => (Ok a, s).
Definition raise {A} (f : failure) : M A := fun s => (Raise f, s).
Definition timeout {A} : M A := fun s => (OutOfFuel, s).

Definition bind {A B} (c : M A) (k : A -> M B) : M B := fun s =>
  match c s with
  | (Ok a, s') => k a s'
  | (Raise f, s') => (Raise f, s')
  | (OutOfFuel, s') => (OutOfFuel, s')
  end.

(** [try: c  except ...: h].  The handler table [h] answers [None] for an
    exception class the [except] clause does not name. *)
Definition try_except {A} (c : M A) (h : failure -> option (M A)) : M A := fun s =>
  match c s with
  | (Raise f, s') =>
      match h f with
      | Some k => k s'
      | None => (Raise f, s')
      end
  | r => r
  end.

Declare Scope py_scope.
Delimit Scope py_scope with py.
Notation "x <- c ;; k" := (bind c (fun x => k))
  (at level 100, c at next level, right associativity) : py_scope.
Notation "c ;;; k" := (bind c (fun _ => k))
  (at level 100, right associativity) : py_scope.
Open Scope py_scope.

(** [stream.tell()], [stream.seek(p)], [stream.read(n)].  [read] returns at
    most [n] characters, fewer at the end of the buffer, and advances by the
    number of characters it returned. *)
Definition tell : M nat := fun s => (Ok (position s), s).

Definition seek (p : nat) : M unit := fun s =>
  (Ok tt, {| buffer := buffer s; position := p |}).

Definition read (n : nat) : M string := fun s =>
  let content := substring (position s) n (buffer s) in
  (Ok content, {| buffer := buffer s; position := position s + String.length content |}).

(** ** Character classes: [str.isdigit], [str.isspace] below code point 256 *)

Definition char_isdigit (c : ascii) : bool :=
  let n := nat_of_ascii c in
  (((48 <=? n) && (n <=? 57)) || (n =? 178) || (n =? 179) || (n =? 185))%nat.

Definition char_isspace (c : ascii) : bool :=
  let n := nat_of_ascii c in
  (((9 <=? n) && (n <=? 13)) || ((28 <=? n) && (n <=? 32)) || (n =? 133) || (n =? 160))%nat.

Fixpoint all_chars (f : ascii -> bool) (a : string) : bool :=
  match a with
  | EmptyString => true
  | String c a' => f c && all_chars f a'
  end.

Definition nonempty (a : string) : bool :=
  match a with EmptyString => false | _ => true end.

(** [lambda a: a.isdigit()] and [lambda a: a.isspace()]: false on the empty
    string. *)
Definition isdigit (a : string) : bool := nonempty a && all_chars char_isdigit a.
Definition isspace (a : string) : bool := nonempty a && all_chars char_isspace a.

(** [str.isalpha] and [str.isalnum] below code point 256, for [name]. *)
Definition char_isalpha (c : ascii) : bool :=
  let n := nat_of_ascii c in
  (((65 <=? n) && (n <=? 90)) || ((97 <=? n) && (n <=? 122)) ||
   (n =? 170) || (n =? 181) || (n =? 186) ||
   ((192 <=? n) && (n <=? 214)) || ((216 <=? n) && (n <=? 246)) ||
   ((248 <=? n) && (n <=? 255)))%nat.

Definition char_isalnum (c : ascii) : bool :=
  let n := nat_of_ascii c in
  char_isalpha c || char_isdigit c || ((188 <=? n) && (n <=? 190))%nat.

Definition isalpha (a : string) : bool := nonempty a && all_chars char_isalpha a.
Definition isalnum (a : string) : bool := nonempty a && all_chars char_isalnum a.

(** [int(text)] on a text of [isdigit] characters: the superscript digits
    pass [isdigit] and make [int] raise [ValueError] ([None]). *)
Definition digit_value (c : ascii) : option Z :=
  let n := nat_of_ascii c in
  if ((48 <=? n) && (n <=? 57))%nat then Some (Z.of_nat (n - 48)) else None.

Fixpoint int_digits (acc : Z) (text : string) : option Z :=
  match text with
  | EmptyString => Some acc
  | String c text' =>
      match digit_value c with
      | Some d => int_digits (10 * acc + d) text'
      | None => None
      end
  end.

Definition int (text : string) : option Z :=
  match text with
  | EmptyString => None
  | _ => int_digits 0 text
  end.

(** ** The primitive matcher: [match(stream, predicate, rollback=False)] *)

Definition match_ (predicate : string -> bool) (rollback : bool) : M string :=
  position <- tell ;;
  character <- read 1 ;;
  if predicate character then
    (if rollback then seek position else ret tt) ;;;
    ret character
  else if nonempty character then
    seek position ;;;
    raise (NoMatch (CouldNotMatch character))
  else
    raise EndOfInput.

(** ** [rollback(parser)] *)

Definition rollback {A} (parser : M A) : M A :=
  start <- tell ;;
  try_except parser
    (fun e => match e with
              | NoMatch _ => Some (seek start ;;; raise e)
              | EndOfInput => None
              end).

(** ** [concatenation] of parsers: the list comprehension
    [[parser(stream) for parser in parsers]] *)

Fixpoint concatenation_items (parsers : list Parser) : M (list pyval) :=
  match parsers with
  | [] => ret []
  | parser :: parsers' =>
      v <- parser ;;
      vs <- concatenation_items parsers' ;;
      ret (v :: vs)
  end.

Definition concatenation (parsers : list Parser) : Parser :=
  vs <- concatenation_items parsers ;;
  ret (VList vs).

(** ** [alternation] of parsers: the bare [except:] takes both exception
    classes; nothing moves the stream between two candidates. *)

Definition exhausted : message := Text "Exhausted all parsers".

Fixpoint alternation (parsers : list Parser) : Parser :=
  match parsers with
  | [] => raise (NoMatch exhausted)
  | parser :: parsers' =>
      try_except parser (fun _ => Some (alternation parsers'))
  end.

(** ** [zero_or_more(parser)]: [while True] is cut off by [fuel]; only
    [SyntaxError] ends the loop. *)

Fixpoint zero_or_more_loop (fuel : nat) (parser : Parser) (result : list pyval)
  : M (list pyval) :=
  match fuel with
  | 0 => timeout
  | S fuel' =>
      step <- try_except (v <- parser ;; ret (Some v))
                (fun e => match e with
                          | NoMatch _ => Some (ret None)
                          | EndOfInput => None
                          end) ;;
      match step with
      | Some v => zero_or_more_loop fuel' parser (result ++ [v])
      | None => ret result
      end
  end.

Definition zero_or_more (fuel : nat) (parser : Parser) : Parser :=
  vs <- zero_or_more_loop fuel parser [] ;;
  ret (VList vs).

(** ** [one_or_more(parser)]: [parse] holds a [yield], so calling it only
    builds the generator object; the body runs when the object is resumed. *)

Definition one_or_more (parser : Parser) : Parser :=
  ret (VGen parser 0 false).

Record generator : Type :=
  mkGen { gen_parser : Parser; gen_count : nat; gen_finished : bool }.

Definition as_generator (v : pyval) : option generator :=
  match v with
  | VGen parser count finished => Some (mkGen parser count finished)
  | _ => None
  end.

Definition expected_one_or_more : message := Text "Expected one or more tokens".

(** One resumption of the generator: [Some v] is a yielded value, [None] is
    [StopIteration].  [count += 1] runs when the body is resumed after the
    [yield]; it is folded into the state stored at the [yield]. *)
Definition next (g : generator) : M (option pyval * generator) :=
  if gen_finished g then ret (None, g)
  else
    step <- try_except (v <- gen_parser g ;; ret (Some v))
              (fun _ => Some (ret None)) ;;
    match step with
    | Some v => ret (Some v, mkGen (gen_parser g) (S (gen_count g)) false)
    | None =>
        if (gen_count g =? 0)%nat then raise (NoMatch expected_one_or_more)
        else ret (None, mkGen (gen_parser g) (gen_count g) true)
    end.

(** [list(g)]: resume until [StopIteration]. *)
Fixpoint list_ (fuel : nat) (g : generator) (result : list pyval) : M (list pyval) :=
  match fuel with
  | 0 => timeout
  | S fuel' =>
      step <- next g ;;
      match step with
      | (Some v, g') => list_ fuel' g' (result ++ [v])
      | (None, _) => ret result
      end
  end.

(** ** [maybe(parser)] *)

Definition maybe (parser : Parser) : Parser :=
  try_except parser (fun _ => Some (ret VNone)).

(** ** Lexical parsers *)

(** The number of characters between the position and the end of the buffer.
    The loops of [number] and [whitespace] read one character per round, so
    they make at most one round more than that. *)
Definition left_to_read (s : stream) : nat := String.length (buffer s) - position s.

Definition remaining : M nat := fun s => (Ok (left_to_read s), s).

(** The [while True] loop of [number]: [EOFError] ends it, [SyntaxError]
    ends it after the peek for white space, whose exception is not caught. *)
Fixpoint number_more (fuel : nat) (digits : string) : M string :=
  match fuel with
  | 0 => timeout
  | S fuel' =>
      step <- try_except (c <- match_ isdigit false ;; ret (Some c))
                (fun e => match e with
                          | EndOfInput => Some (ret None)
                          | NoMatch _ => Some (match_ isspace true ;;; ret None)
                          end) ;;
      match step with
      | Some c => number_more fuel' (digits ++ c)
      | None => ret digits
      end
  end.

Definition number : Parser :=
  rollback (
    first <- match_ isdigit false ;;
    fuel <- remaining ;;
    digits <- number_more (S fuel) first ;;
    match int digits with
    | Some z => ret (VInt z)
    | None => raise (NoMatch (InvalidLiteral digits))
    end).

(** The [while True] loop of [name]: the loop of [number] with [isalnum]. *)
Fixpoint name_more (fuel : nat) (letters : string) : M string :=
  match fuel with
  | 0 => timeout
  | S fuel' =>
      step <- try_except (c <- match_ isalnum false ;; ret (Some c))
                (fun e => match e with
                          | EndOfInput => Some (ret None)
                          | NoMatch _ => Some (match_ isspace true ;;; ret None)
                          end) ;;
      match step with
      | Some c => name_more fuel' (letters ++ c)
      | None => ret letters
      end
  end.

Definition name : Parser :=
  rollback (
    first <- match_ isalpha false ;;
    fuel <- remaining ;;
    letters <- name_more (S fuel) first ;;
    ret (VStr letters)).

Definition keyword (value : string) : Parser :=
  rollback (
    content <- read (String.length value) ;;
    if String.eqb value content then ret (VStr value)
    else raise (NoMatch (ExpectedToMatch content value))).

Definition not_enough_whitespace : message := Text "Not enough whitespace to match.".

Fixpoint whitespace_minimum (count : nat) (found : string) : M string :=
  match count with
  | 0 => ret found
  | S count' =>
      c <- match_ isspace false ;;
      whitespace_minimum count' (found ++ c)
  end.

Fixpoint whitespace_more (fuel : nat) (found : string) : M string :=
  match fuel with
  | 0 => timeout
  | S fuel' =>
      step <- try_except (c <- match_ isspace false ;; ret (Some c))
                (fun _ => Some (ret None)) ;;
      match step with
      | Some c => whitespace_more fuel' (found ++ c)
      | None => ret found
      end
  end.

Definition whitespace (minimum_count : nat) : Parser :=
  rollback (
    required <- try_except (whitespace_minimum minimum_count "")
                  (fun _ => Some (raise (NoMatch not_enough_whitespace))) ;;
    fuel <- remaining ;;
    found <- whitespace_more (S fuel) required ;;
    ret (VStr found)).

(** ** The expression grammar

    [value] calls the global [expression], which is [sum], which holds
    [value].  The interpreter bounds the depth of calls and raises
    [RecursionError] when the bound is passed; [depth] counts the rounds of
    the cycle [expression], [sum], [value] that the bound still allows, and
    the error is raised where [sum] is entered with no round left.
    [RecursionError] is neither [SyntaxError] nor [EOFError]; in the grammar
    it is raised inside the [try] of [alternation] only, whose bare
    [except:] takes every exception alike, so which failure stands for it
    is left open as [recursion_error].  [fuel] cuts off the loop of
    [zero_or_more]. *)

Definition value_of (expression : Parser) : Parser :=
  alternation [number; (fun e => expression e)].


Definition sum_of (fuel : nat) (expression : Parser) : Parser :=
  concatenation
    [value_of expression;
     whitespace 0;
     zero_or_more fuel
       (concatenation
          [alternation [keyword "+"; keyword "-"];
           whitespace 0;
           value_of expression])].

Fixpoint sum (recursion_error : failure) (depth fuel : nat) : Parser :=
  match depth with
  | 0 => raise recursion_error
  | S depth' => sum_of fuel (sum recursion_error depth' fuel)
  end.

Definition expression : failure -> nat -> nat -> Parser := sum.

Definition value (recursion_error : failure) (depth fuel : nat) : Parser :=
  value_of (expression recursion_error depth fuel).


Definition StringIO (text : string) : stream := mkStream text 0.

(** ** Notions the statements below are phrased with *)

(** [iterates parser s vs s']: run from [s], [parser] succeeds [length vs]
    times in a row, returns [vs] in that order and leaves the stream at [s']. *)
Inductive iterates (parser : Parser) : stream -> list pyval -> stream -> Prop :=
| iterates_nil : forall s, iterates parser s [] s
| iterates_cons : forall s v s1 vs s',
    parser s = (Ok v, s1) ->
    iterates parser s1 vs s' ->
    iterates parser s (v :: vs) s'.

(** [all_fail parsers s s']: run one after the other from [s], every parser
    of the list raises, and the last one leaves the stream at [s']. *)
Inductive all_fail : list Parser -> stream -> stream -> Prop :=
| all_fail_nil : forall s, all_fail [] s s
| all_fail_cons : forall parser parsers s f s1 s',
    parser s = (Raise f, s1) ->
    all_fail parsers s1 s' ->
    all_fail (parser :: parsers) s s'.

(** A parser that leaves the stream as it found it whenever it raises. *)
Definition restores (parser : Parser) : Prop :=
  forall s f s', parser s = (Raise f, s') -> s' = s.

(** The choice combinator in the words of the specification: every candidate
    is tried from the same starting stream state [s], the first success is
    the result, and when all candidates raise the combinator raises. *)
Fixpoint alternation_same_offset (parsers : list Parser) (s : stream)
  : outcome pyval * stream :=
  match parsers with
  | [] => (Raise (NoMatch exhausted), s)
  | parser :: parsers' =>
      match parser s with
      | (Raise _, _) => alternation_same_offset parsers' s
      | r => r
      end
  end.

(** The stream is at the end of its input: nothing is left to read. *)
Definition at_end (s : stream) : Prop := String.length (buffer s) <= position s.

(** What is left of the buffer from the position on, the stream moved on by
    [k] characters, and the longest prefix of a text whose characters all
    pass a test. *)
Fixpoint drop (n : nat) (b : string) : string :=
  match n, b with
  | 0, _ => b
  | S n', String _ b' => drop n' b'
  | S _, EmptyString => EmptyString
  end.

Fixpoint take (n : nat) (b : string) : string :=
  match n, b with
  | S n', String c b' => String c (take n' b')
  | _, _ => EmptyString
  end.

Definition rest (s : stream) : string := drop (position s) (buffer s).

Definition advance (k : nat) (s : stream) : stream :=
  {| buffer := buffer s; position := position s + k |}.

Fixpoint take_while (f : ascii -> bool) (b : string) : string :=
  match b with
  | EmptyString => EmptyString
  | String c b' => if f c then String c (take_while f b') else EmptyString
  end.

(** The text starts with a character that is not white space. *)
Definition blocked (b : string) : bool :=
  match b with
  | EmptyString => false
  | String c _ => negb (char_isspace c)
  end.

(** [in_sequence parsers s vs s']: run one after the other from [s], every
    parser of the list succeeds; [vs] are the results in the order of the
    parsers and [s'] is the stream after the last one. *)
Inductive in_sequence : list Parser -> stream -> list pyval -> stream -> Prop :=
| in_sequence_nil : forall s, in_sequence [] s [] s
| in_sequence_cons : forall parser parsers s v s1 vs s',
    parser s = (Ok v, s1) ->
    in_sequence parsers s1 vs s' ->
    in_sequence (parser :: parsers) s (v :: vs) s'.

(** A parser that raises on no stream. *)
Definition never_raises (parser : Parser) : Prop :=
  forall s f, fst (parser s) <> Raise f.

(** An item of the list that [sum] collects after its first operand: an
    operator, the white space after it, and an integer. *)
Definition is_group (g : pyval) : Prop :=
  exists op w z,
    g = VList [VStr op; VStr w; VInt z] /\
    (op = "+" \/ op = "-") /\
    all_chars char_isspace w = true.

(** The grammar without its recursion and without its loop: an integer,
    white space and, if an operator follows, the operator, white space and
    a second integer.  When no integer follows the operator, the operator
    and the white space after it stay read and the list of groups is empty. *)
Definition expression_flat : Parser := fun s =>
  match number s with
  | (Ok v, s1) =>
      match whitespace 0 s1 with
      | (Ok w, s2) =>
          match alternation [keyword "+"; keyword "-"] s2 with
          | (Ok op, s3) =>
              match whitespace 0 s3 with
              | (Ok w', s4) =>
                  match number s4 with
                  | (Ok v', s5) =>
                      (Ok (VList [v; w; VList [VList [op; w'; v']]]), s5)
                  | (_, _) => (Ok (VList [v; w; VList []]), s4)
                  end
              | (r, s4) => (r, s4)
              end
          | (_, _) => (Ok (VList [v; w; VList []]), s2)
          end
      | (r, s2) => (r, s2)
      end
  | (_, _) => (Raise (NoMatch exhausted), s)
  end.

(** * Properties *)

Ltac run :=
  unfold bind, try_except, ret, raise, timeout, tell, seek, read in *;
  simpl in *.

Lemma stream_eta (s : stream) :
  {| buffer := buffer s; position := position s |} = s.
Proof. destruct s; reflexivity. Qed.

Lemma substring_at_end (b : string) :
  forall p n, String.length b <= p -> substring p n b = "".
Proof.
  induction b as [|c b IH]; intros p n Hp.
  - destruct p, n; reflexivity.
  - destruct p as [|p]; simpl in Hp; [lia|].
    simpl. apply IH. lia.
Qed.

(** ** The primitive matcher *)

(** What [match] does, by cases on the character it read. *)
Lemma match_unfold (predicate : string -> bool) (rb : bool) (s : stream) :
  let character := substring (position s) 1 (buffer s) in
  match_ predicate rb s =
    if predicate character then
      (Ok character,
       if rb then s
       else {| buffer := buffer s;
               position := position s + String.length character |})
    else if nonempty character then
      (Raise (NoMatch (CouldNotMatch character)), s)
    else
      (Raise EndOfInput,
       {| buffer := buffer s;
          position := position s + String.length character |}).
Proof.
  unfold match_; run.
  destruct (predicate _); [destruct rb; simpl; now rewrite ?stream_eta|].
  destruct (nonempty _); simpl; now rewrite ?stream_eta.
Qed.

(** C1: when [match] raises [NoMatch], the stream is where it was before the
    call: same offset, same buffer; and the message carries the one character
    that was read and rejected. *)
Theorem match_NoMatch_offset_unchanged
  (predicate : string -> bool) (rb : bool) (s s' : stream) (msg : message) :
  match_ predicate rb s = (Raise (NoMatch msg), s') ->
  position s' = position s /\ s' = s /\
  msg = CouldNotMatch (substring (position s) 1 (buffer s)).
Proof.
  rewrite match_unfold; cbv zeta.
  destruct (predicate _); [discriminate|].
  destruct (nonempty _); [|discriminate].
  intros H; inversion H; subst; auto.
Qed.

Lemma match_NoMatch_offset_unchanged_witness :
  match_ (fun a => isdigit a) false (mkStream "a1" 0)
    = (Raise (NoMatch (CouldNotMatch "a")), mkStream "a1" 0) /\
  position (snd (match_ (fun a => isdigit a) false (mkStream "a1" 0))) = 0.
Proof.
  split; [reflexivity|].
  exact (proj1 (match_NoMatch_offset_unchanged
                  (fun a => isdigit a) false (mkStream "a1" 0) _
                  (CouldNotMatch "a") eq_refl)).
Defined.

(** C8, as the code has it: at the end of the input, [match] raises
    [EndOfInput] and leaves the stream unchanged, for every predicate that
    rejects the empty string (the result of the read). *)
Theorem match_at_end_EndOfInput
  (predicate : string -> bool) (rb : bool) (s : stream) :
  at_end s ->
  predicate "" = false ->
  match_ predicate rb s = (Raise EndOfInput, s).
Proof.
  intros Hend Hp. rewrite match_unfold; cbv zeta.
  rewrite (substring_at_end _ _ _ Hend), Hp. simpl.
  rewrite Nat.add_0_r, stream_eta. reflexivity.
Qed.

Lemma match_at_end_EndOfInput_witness :
  match_ (fun a => isdigit a) false (mkStream "a1" 2)
    = (Raise EndOfInput, mkStream "a1" 2).
Proof.
  apply (match_at_end_EndOfInput (fun a => isdigit a) false (mkStream "a1" 2)).
  - unfold at_end; simpl; lia.
  - reflexivity.
Defined.

(** C8, as stated, fails: the predicate is asked before the read is checked
    for exhaustion, so a predicate that accepts the empty string makes
    [match] return the empty string at the end of the input. *)
Lemma match_at_end_accepting_predicate :
  let s := mkStream "a1" 2 in
  at_end s /\
  match_ (fun _ => true) false s = (Ok "", s) /\
  fst (match_ (fun _ => true) false s) <> Raise EndOfInput.
Proof.
  repeat split.
  - unfold at_end; simpl; lia.
  - simpl; discriminate.
Qed.

(** ** The rollback wrapper *)

(** C2: [rollback parser] returns what [parser] returns when it succeeds;
    when [parser] raises [NoMatch] it raises the same failure with the
    offset set back to the one at the call; when [parser] raises
    [EndOfInput] it raises it with the stream as [parser] left it. *)
Theorem rollback_cases (parser : Parser) (s : stream) :
  (forall v s', parser s = (Ok v, s') -> rollback parser s = (Ok v, s')) /\
  (forall msg s', parser s = (Raise (NoMatch msg), s') ->
     rollback parser s
       = (Raise (NoMatch msg), {| buffer := buffer s'; position := position s |})) /\
  (forall s', parser s = (Raise EndOfInput, s') ->
     rollback parser s = (Raise EndOfInput, s')).
Proof.
  unfold rollback; run.
  repeat split; intros * H; rewrite H; reflexivity.
Qed.

(** A parser that reads one character and then fails, as in the docstring
    of [rollback], and one that reads a keyword and then meets the end. *)
Lemma rollback_cases_witness :
  let raise_error : Parser := (read 1 ;;; raise (NoMatch (Text "test"))) in
  let at_eof : Parser := concatenation [keyword "a"; number] in
  rollback (keyword "te") (StringIO "test") = (Ok (VStr "te"), mkStream "test" 2) /\
  rollback raise_error (StringIO "test")
    = (Raise (NoMatch (Text "test")), mkStream "test" 0) /\
  rollback at_eof (StringIO "a") = (Raise EndOfInput, mkStream "a" 1).
Proof.
  intros raise_error at_eof.
  split; [|split].
  - apply (proj1 (rollback_cases (keyword "te") (StringIO "test"))). reflexivity.
  - apply (proj1 (proj2 (rollback_cases raise_error (StringIO "test")))
             (Text "test") (mkStream "test" 1)).
    reflexivity.
  - apply (proj2 (proj2 (rollback_cases at_eof (StringIO "a")))). reflexivity.
Defined.

(** ** Keywords *)

Lemma keyword_unfold (value : string) (s : stream) :
  let content := substring (position s) (String.length value) (buffer s) in
  keyword value s =
    if String.eqb value content then
      (Ok (VStr value),
       {| buffer := buffer s; position := position s + String.length content |})
    else (Raise (NoMatch (ExpectedToMatch content value)), s).
Proof.
  cbv zeta. unfold keyword, rollback; run.
  destruct (String.eqb value _); simpl; now rewrite ?stream_eta.
Qed.

Lemma keyword_restores (value : string) : restores (keyword value).
Proof.
  intros s f s'. rewrite keyword_unfold; cbv zeta.
  destruct (String.eqb value _); intros H; inversion H; reflexivity.
Qed.

(** C6: [keyword value] either returns [value], having moved the offset by
    exactly [len(value)], or raises [NoMatch] naming what it read and what
    it expected, with the stream where it was.  A short read at the end of
    the input is the second case. *)
Theorem keyword_atomic (value : string) (s : stream) :
  let content := substring (position s) (String.length value) (buffer s) in
  (content = value /\
   keyword value s
     = (Ok (VStr value),
        {| buffer := buffer s; position := position s + String.length value |}))
  \/
  (content <> value /\
   keyword value s = (Raise (NoMatch (ExpectedToMatch content value)), s)).
Proof.
  cbv zeta. rewrite keyword_unfold; cbv zeta.
  destruct (String.eqb value _) eqn:E.
  - apply String.eqb_eq in E. left. split; [auto|].
    rewrite <- E. reflexivity.
  - apply String.eqb_neq in E. right. split; [congruence|reflexivity].
Qed.

(** The docstring of [keyword]. *)
Example keyword_bla_empty :
  keyword "bla" (StringIO "")
    = (Raise (NoMatch (ExpectedToMatch "" "bla")), StringIO "").
Proof. reflexivity. Qed.

Example keyword_bla_123 :
  keyword "bla" (StringIO "bla 123") = (Ok (VStr "bla"), mkStream "bla 123" 3).
Proof. reflexivity. Qed.

(** ** Integer literals *)

(** C5: on ["123+456"] the integer parser raises and the offset is 0 again.
    The three digits are read; ["+"] is no digit, and the peek for white
    space that follows raises [NoMatch] for it; that failure leaves [number]
    through [rollback], which seeks back to 0. *)
Theorem number_123_plus_456 :
  number (StringIO "123+456")
    = (Raise (NoMatch (CouldNotMatch "+")), mkStream "123+456" 0) /\
  number_more 5 "1" (mkStream "123+456" 1)
    = (Raise (NoMatch (CouldNotMatch "+")), mkStream "123+456" 3) /\
  fst (number (StringIO "123+456")) <> Ok (VInt 123).
Proof.
  repeat split; try reflexivity. simpl; discriminate.
Qed.

(** The docstring of [number], and the separated literal of the
    specification. *)
Example number_1_123 :
  number (StringIO "1 123") = (Ok (VInt 1), mkStream "1 123" 1).
Proof. reflexivity. Qed.

Example number_123_123_bravo :
  number (StringIO "123 123 bravo") = (Ok (VInt 123), mkStream "123 123 bravo" 3).
Proof. reflexivity. Qed.

(** A superscript two passes [isdigit] and fails [int]. *)
Example number_superscript :
  number (StringIO (String (ascii_of_nat 178) ""))
    = (Raise (NoMatch (InvalidLiteral (String (ascii_of_nat 178) ""))),
       StringIO (String (ascii_of_nat 178) "")).
Proof. reflexivity. Qed.

(** The docstring of [whitespace]. *)
Example whitespace_3 :
  whitespace 3 (StringIO "  ")
    = (Raise (NoMatch not_enough_whitespace), StringIO "  ").
Proof. reflexivity. Qed.

Example whitespace_2 :
  whitespace 2 (StringIO "  ") = (Ok (VStr "  "), mkStream "  " 2).
Proof. reflexivity. Qed.

(** ** Choice *)

Lemma alternation_ok (parser : Parser) (parsers : list Parser) (s s' : stream) (v : pyval) :
  parser s = (Ok v, s') -> alternation (parser :: parsers) s = (Ok v, s').
Proof. intros H. simpl. unfold try_except. now rewrite H. Qed.

Lemma alternation_raise (parser : Parser) (parsers : list Parser) (s s' : stream) (f : failure) :
  parser s = (Raise f, s') -> alternation (parser :: parsers) s = alternation parsers s'.
Proof. intros H. simpl. unfold try_except. now rewrite H. Qed.

Lemma alternation_all_fail (parsers : list Parser) (s s' : stream) :
  all_fail parsers s s' -> alternation parsers s = (Raise (NoMatch exhausted), s').
Proof.
  induction 1 as [s|parser parsers s f s1 s' Hp _ IH].
  - reflexivity.
  - now rewrite (alternation_raise _ _ _ _ _ Hp).
Qed.

Lemma alternation_restoring (parsers : list Parser) :
  Forall restores parsers ->
  forall s, alternation parsers s = alternation_same_offset parsers s.
Proof.
  induction 1 as [|parser parsers Hr _ IH]; intros s; [reflexivity|].
  simpl. unfold try_except.
  destruct (parser s) as [[v|f|] s1] eqn:E; try reflexivity.
  rewrite (Hr _ _ _ E). apply IH.
Qed.

(** C7, as the code has it: the candidates run in order and the first
    success is the result, so the first candidate's result wins when it
    succeeds; a failure of either kind is swallowed and the next candidate
    starts where the failed one left the stream (the combinator does not
    seek); when every candidate raises, the combinator raises
    [NoMatch "Exhausted all parsers"]; and when every candidate leaves the
    stream unchanged on failure, all of them are tried from the same
    starting offset. *)
Theorem alternation_first_success :
  (forall parser parsers s v s',
     parser s = (Ok v, s') -> alternation (parser :: parsers) s = (Ok v, s')) /\
  (forall parser parsers s f s',
     parser s = (Raise f, s') ->
     alternation (parser :: parsers) s = alternation parsers s') /\
  (forall parsers s s',
     all_fail parsers s s' ->
     alternation parsers s = (Raise (NoMatch (Text "Exhausted all parsers")), s')) /\
  (forall parsers,
     Forall restores parsers ->
     forall s, alternation parsers s = alternation_same_offset parsers s).
Proof.
  split; [intros; now apply alternation_ok|].
  split; [intros; now apply alternation_raise with f|].
  split; [exact alternation_all_fail|exact alternation_restoring].
Qed.

Lemma alternation_first_success_witness :
  let A := keyword "a" in
  let B := keyword "ab" in
  let s := StringIO "ab" in
  B s = (Ok (VStr "ab"), mkStream "ab" 2) /\
  alternation [A; B] s = (Ok (VStr "a"), mkStream "ab" 1) /\
  alternation [B; A] (StringIO "a") = alternation [A] (StringIO "a") /\
  alternation [A; B] (StringIO "b") = (Raise (NoMatch exhausted), StringIO "b") /\
  alternation [A; B] s = alternation_same_offset [A; B] s.
Proof.
  intros A B s.
  destruct alternation_first_success as (Hok & Hraise & Hall & Hsame).
  split; [reflexivity|].
  split; [apply Hok; reflexivity|].
  split; [apply (Hraise B [A] (StringIO "a") (NoMatch (ExpectedToMatch "a" "ab")));
          reflexivity|].
  split.
  - apply Hall.
    apply (all_fail_cons A [B] _ (NoMatch (ExpectedToMatch "b" "a")) (StringIO "b"));
      [reflexivity|].
    apply (all_fail_cons B [] _ (NoMatch (ExpectedToMatch "b" "ab")) (StringIO "b"));
      [reflexivity|].
    apply all_fail_nil.
  - apply Hsame. repeat constructor; apply keyword_restores.
Defined.

(** C7, as stated, fails: a candidate that has read input when it fails
    leaves the stream there, and the next candidate starts from that offset,
    not from the starting one.  On ["a"], the first candidate reads the
    keyword and meets the end of the input; the second, which succeeds from
    offset 0, is tried at offset 1 and fails. *)
Lemma alternation_not_same_offset :
  let A := concatenation [keyword "a"; number] in
  let B := keyword "a" in
  let s := StringIO "a" in
  A s = (Raise EndOfInput, mkStream "a" 1) /\
  B s = (Ok (VStr "a"), mkStream "a" 1) /\
  alternation_same_offset [A; B] s = (Ok (VStr "a"), mkStream "a" 1) /\
  alternation [A; B] s = (Raise (NoMatch exhausted), mkStream "a" 1) /\
  alternation [A; B] s <> alternation_same_offset [A; B] s.
Proof.
  repeat split; discriminate.
Qed.

(** ** Zero or more *)

Section ZeroOrMore.
Variable parser : Parser.

(** One round of the loop, by cases on what [parser] does. *)
Lemma zero_or_more_loop_step (fuel : nat) (result : list pyval) (s : stream) :
  zero_or_more_loop (S fuel) parser result s =
    match parser s with
    | (Ok v, s') => zero_or_more_loop fuel parser (result ++ [v])%list s'
    | (Raise (NoMatch _), s') => (Ok result, s')
    | (Raise EndOfInput, s') => (Raise EndOfInput, s')
    | (OutOfFuel, s') => (OutOfFuel, s')
    end.
Proof.
  simpl; run. destruct (parser s) as [[v|[msg|]|] s']; reflexivity.
Qed.

Lemma zero_or_more_loop_raise (fuel : nat) :
  forall result s f s',
    zero_or_more_loop fuel parser result s = (Raise f, s') ->
    f = EndOfInput /\ exists s0, parser s0 = (Raise EndOfInput, s').
Proof.
  induction fuel as [|fuel IH]; intros result s f s'; [discriminate|].
  rewrite zero_or_more_loop_step.
  destruct (parser s) as [[v|[msg|]|] s1] eqn:E; try discriminate.
  - apply IH.
  - intros H; inversion H; subst. split; [reflexivity|now exists s].
Qed.

Lemma zero_or_more_loop_ok (fuel : nat) :
  forall result s l s',
    zero_or_more_loop fuel parser result s = (Ok l, s') ->
    exists vs s1 msg,
      l = (result ++ vs)%list /\ iterates parser s vs s1 /\
      parser s1 = (Raise (NoMatch msg), s').
Proof.
  induction fuel as [|fuel IH]; intros result s l s'; [discriminate|].
  rewrite zero_or_more_loop_step.
  destruct (parser s) as [[v|[msg|]|] s1] eqn:E; try discriminate.
  - intros H. destruct (IH _ _ _ _ H) as (vs & s2 & msg & Hl & Hi & Hp).
    exists (v :: vs), s2, msg. split; [|split]; auto.
    + now rewrite Hl, <- app_assoc.
    + now apply iterates_cons with s1.
  - intros H; inversion H; subst.
    exists [], s, msg. split; [now rewrite app_nil_r|].
    split; [constructor|assumption].
Qed.

Lemma zero_or_more_loop_iterates (s : stream) (vs : list pyval) (s1 : stream) :
  iterates parser s vs s1 ->
  forall fuel result f s2,
    parser s1 = (Raise f, s2) ->
    length vs < fuel ->
    zero_or_more_loop fuel parser result s =
      match f with
      | NoMatch _ => (Ok (result ++ vs)%list, s2)
      | EndOfInput => (Raise EndOfInput, s2)
      end.
Proof.
  induction 1 as [s|s v s1 vs s' Hp _ IH]; intros fuel result f s2 Hf Hlen;
    (destruct fuel as [|fuel]; [simpl in Hlen; lia|]);
    rewrite zero_or_more_loop_step.
  - rewrite Hf. destruct f; [now rewrite app_nil_r|reflexivity].
  - rewrite Hp. rewrite (IH fuel (result ++ [v])%list f s2 Hf) by (simpl in Hlen; lia).
    destruct f; [now rewrite <- app_assoc|reflexivity].
Qed.

Lemma zero_or_more_unfold (fuel : nat) (s : stream) :
  zero_or_more fuel parser s =
    match zero_or_more_loop fuel parser [] s with
    | (Ok vs, s') => (Ok (VList vs), s')
    | (Raise f, s') => (Raise f, s')
    | (OutOfFuel, s') => (OutOfFuel, s')
    end.
Proof. reflexivity. Qed.
End ZeroOrMore.

(** C4: [zero_or_more parser] never raises [NoMatch]; the only failure it
    raises is an [EndOfInput] that [parser] raised, and then the values
    collected so far are lost; when [parser], after [length vs] successes,
    raises [NoMatch], the loop ends and the list [vs] (empty when the first
    call fails) is returned; and a list that is returned was collected in
    this way. *)
Theorem zero_or_more_never_NoMatch (parser : Parser) (fuel : nat) (s : stream) :
  (forall msg, fst (zero_or_more fuel parser s) <> Raise (NoMatch msg)) /\
  (forall f s', zero_or_more fuel parser s = (Raise f, s') ->
     f = EndOfInput /\ exists s0, parser s0 = (Raise EndOfInput, s')) /\
  (forall vs s1 msg s2,
     iterates parser s vs s1 ->
     parser s1 = (Raise (NoMatch msg), s2) ->
     length vs < fuel ->
     zero_or_more fuel parser s = (Ok (VList vs), s2)) /\
  (forall vs s1 s2,
     iterates parser s vs s1 ->
     parser s1 = (Raise EndOfInput, s2) ->
     length vs < fuel ->
     zero_or_more fuel parser s = (Raise EndOfInput, s2)) /\
  (forall v s', zero_or_more fuel parser s = (Ok v, s') ->
     exists vs s1 msg,
       v = VList vs /\ iterates parser s vs s1 /\
       parser s1 = (Raise (NoMatch msg), s')).
Proof.
  assert (Hraise : forall f s', zero_or_more fuel parser s = (Raise f, s') ->
            f = EndOfInput /\ exists s0, parser s0 = (Raise EndOfInput, s')).
  { intros f s'. rewrite zero_or_more_unfold.
    destruct (zero_or_more_loop fuel parser [] s) as [[l|f0|] s0] eqn:E;
      try discriminate.
    intros H; inversion H; subst. now apply zero_or_more_loop_raise in E. }
  split; [|split; [exact Hraise|split; [|split]]].
  - intros msg H.
    destruct (zero_or_more fuel parser s) as [r s'] eqn:E. simpl in H. subst r.
    destruct (Hraise _ _ eq_refl) as [Habs _]. discriminate.
  - intros vs s1 msg s2 Hi Hp Hlen. rewrite zero_or_more_unfold.
    now rewrite (zero_or_more_loop_iterates parser s vs s1 Hi fuel [] _ s2 Hp Hlen).
  - intros vs s1 s2 Hi Hp Hlen. rewrite zero_or_more_unfold.
    now rewrite (zero_or_more_loop_iterates parser s vs s1 Hi fuel [] _ s2 Hp Hlen).
  - intros v s'. rewrite zero_or_more_unfold.
    destruct (zero_or_more_loop fuel parser [] s) as [[l|f0|] s0] eqn:E;
      try discriminate.
    intros H; inversion H; subst.
    destruct (zero_or_more_loop_ok _ _ _ _ _ _ E) as (vs & s1 & msg & Hl & Hi & Hp).
    exists vs, s1, msg. simpl in Hl. subst. auto.
Qed.

(** The docstring of [zero_or_more], and a parser that meets the end of the
    input after one success: the literal already read is lost. *)
Lemma zero_or_more_never_NoMatch_witness :
  zero_or_more 3 (keyword "bla") (StringIO "blabla")
    = (Ok (VList [VStr "bla"; VStr "bla"]), mkStream "blabla" 6) /\
  zero_or_more 3 (keyword "bla") (StringIO "")
    = (Ok (VList []), StringIO "") /\
  zero_or_more 3 number (StringIO "1") = (Raise EndOfInput, mkStream "1" 1) /\
  fst (zero_or_more 3 number (StringIO "1")) <> Raise (NoMatch exhausted).
Proof.
  split; [|split; [|split]].
  - apply (proj1 (proj2 (proj2
             (zero_or_more_never_NoMatch (keyword "bla") 3 (StringIO "blabla"))))
             _ (mkStream "blabla" 6) (ExpectedToMatch "" "bla")).
    + apply iterates_cons with (mkStream "blabla" 3); [reflexivity|].
      apply iterates_cons with (mkStream "blabla" 6); [reflexivity|].
      apply iterates_nil.
    + reflexivity.
    + simpl; lia.
  - apply (proj1 (proj2 (proj2
             (zero_or_more_never_NoMatch (keyword "bla") 3 (StringIO ""))))
             [] (StringIO "") (ExpectedToMatch "" "bla")).
    + apply iterates_nil.
    + reflexivity.
    + simpl; lia.
  - apply (proj1 (proj2 (proj2 (proj2
             (zero_or_more_never_NoMatch number 3 (StringIO "1")))))
             [VInt 1] (mkStream "1" 1)).
    + apply iterates_cons with (mkStream "1" 1); [reflexivity|].
      apply iterates_nil.
    + reflexivity.
    + simpl; lia.
  - exact (proj1 (zero_or_more_never_NoMatch number 3 (StringIO "1")) exhausted).
Defined.

(** ** One or more, and optional *)

(** C10: calling [one_or_more parser] returns at once with a generator
    object that has not run [parser]: the stream is untouched and nothing is
    raised, whatever [parser] would do.  [maybe], wrapped around it, returns
    that object and not [None].  Resuming the object runs [parser] for the
    first time; if that first run raises, of either kind, the resumption
    raises [NoMatch "Expected one or more tokens"]. *)
Theorem one_or_more_lazy (parser : Parser) (s : stream) :
  one_or_more parser s = (Ok (VGen parser 0 false), s) /\
  maybe (one_or_more parser) s = (Ok (VGen parser 0 false), s) /\
  fst (maybe (one_or_more parser) s) <> Ok VNone /\
  as_generator (VGen parser 0 false) = Some (mkGen parser 0 false) /\
  (forall v s', parser s = (Ok v, s') ->
     next (mkGen parser 0 false) s = (Ok (Some v, mkGen parser 1 false), s')) /\
  (forall f s', parser s = (Raise f, s') ->
     next (mkGen parser 0 false) s
       = (Raise (NoMatch (Text "Expected one or more tokens")), s')).
Proof.
  repeat split.
  - simpl; discriminate.
  - intros v s' H. unfold next; run. now rewrite H.
  - intros f s' H. unfold next; run. now rewrite H.
Qed.

(** A parser that never succeeds, and the docstring of [one_or_more]. *)
Lemma one_or_more_lazy_witness :
  let never : Parser := raise (NoMatch (Text "never")) in
  maybe (one_or_more never) (StringIO "abc")
    = (Ok (VGen never 0 false), StringIO "abc") /\
  next (mkGen never 0 false) (StringIO "abc")
    = (Raise (NoMatch expected_one_or_more), StringIO "abc") /\
  next (mkGen number 0 false) (StringIO "")
    = (Raise (NoMatch expected_one_or_more), StringIO "") /\
  next (mkGen number 0 false) (StringIO "123")
    = (Ok (Some (VInt 123), mkGen number 1 false), mkStream "123" 3).
Proof.
  intros never.
  split; [|split; [|split]].
  - exact (proj1 (proj2 (one_or_more_lazy never (StringIO "abc")))).
  - apply (proj2 (proj2 (proj2 (proj2 (proj2
             (one_or_more_lazy never (StringIO "abc"))))))
             (NoMatch (Text "never")) (StringIO "abc")).
    reflexivity.
  - apply (proj2 (proj2 (proj2 (proj2 (proj2
             (one_or_more_lazy number (StringIO ""))))))
             EndOfInput (StringIO "")).
    reflexivity.
  - apply (proj1 (proj2 (proj2 (proj2 (proj2
             (one_or_more_lazy number (StringIO "123"))))))).
    reflexivity.
Defined.

Example one_or_more_list_123 :
  list_ 3 (mkGen number 0 false) [] (StringIO "123") = (Ok [VInt 123], mkStream "123" 3).
Proof. reflexivity. Qed.

Example one_or_more_list_empty :
  list_ 3 (mkGen number 0 false) [] (StringIO "")
    = (Raise (NoMatch expected_one_or_more), StringIO "").
Proof. reflexivity. Qed.

(** The docstring of [maybe]. *)
Example maybe_number_123 :
  maybe number (StringIO "123") = (Ok (VInt 123), mkStream "123" 3).
Proof. reflexivity. Qed.

Example maybe_number_empty :
  maybe number (StringIO "") = (Ok VNone, StringIO "").
Proof. reflexivity. Qed.

(** ** The expression grammar *)

(** C9: on ["1 + 2"] the expression parser returns the nested list
    [[1, ' ', [['+', ' ', 2]]]], for every call depth and for every amount
    of fuel from 2 on, and leaves the offset at 5; the result is not the
    number 3. *)
Theorem expression_1_plus_2 (recursion_error : failure) (depth k : nat) :
  expression recursion_error (1 + depth) (2 + k) (StringIO "1 + 2")
    = (Ok (VList [VInt 1; VStr " "; VList [VList [VStr "+"; VStr " "; VInt 2]]]),
       mkStream "1 + 2" 5) /\
  fst (expression recursion_error (1 + depth) (2 + k) (StringIO "1 + 2"))
    <> Ok (VInt 3).
Proof.
  assert (H : expression recursion_error (1 + depth) (2 + k) (StringIO "1 + 2")
    = (Ok (VList [VInt 1; VStr " "; VList [VList [VStr "+"; VStr " "; VInt 2]]]),
       mkStream "1 + 2" 5)) by (vm_compute; reflexivity).
  split; [exact H|]. rewrite H. simpl. discriminate.
Qed.


(** After [number] has failed and restored the stream, [value] runs its
    second candidate, the whole [expression], on the stream it was given. *)
Lemma value_of_after_number (expression : Parser) (s : stream) (f : failure) :
  number s = (Raise f, s) ->
  value_of expression s =
    match expression s with
    | (Raise _, s') => (Raise (NoMatch exhausted), s')
    | r => r
    end.
Proof.
  intros H. unfold value_of.
  rewrite (alternation_raise _ _ _ _ _ H). simpl. unfold try_except.
  destruct (expression s) as [[v|f'|] s']; reflexivity.
Qed.

Lemma sum_of_raise (fuel : nat) (expression : Parser) (s s' : stream) (f : failure) :
  value_of expression s = (Raise f, s') ->
  sum_of fuel expression s = (Raise f, s').
Proof.
  intros H. unfold sum_of, concatenation. simpl. unfold bind at 1 2.
  now rewrite H.
Qed.

Lemma value_of_raises (expression : Parser) (s : stream) (f f' : failure) :
  number s = (Raise f, s) ->
  expression s = (Raise f', s) ->
  value_of expression s = (Raise (NoMatch exhausted), s).
Proof.
  intros Hn He. rewrite (value_of_after_number _ _ _ Hn). now rewrite He.
Qed.

(** Where [number] fails, every round of the cycle fails at the same
    stream, down to the round that the call depth refuses. *)
Lemma sum_raises_when_number_fails
  (recursion_error : failure) (s : stream) (f : failure) :
  number s = (Raise f, s) ->
  forall depth fuel,
    exists f', sum recursion_error depth fuel s = (Raise f', s).
Proof.
  intros H depth fuel.
  induction depth as [|depth [f' IH]]; [now exists recursion_error|].
  exists (NoMatch exhausted). simpl. apply sum_of_raise.
  now apply value_of_raises with f f'.
Qed.

Lemma sum_exhausted (recursion_error : failure) (s : stream) (f : failure) :
  number s = (Raise f, s) ->
  forall depth fuel,
    sum recursion_error (S depth) fuel s = (Raise (NoMatch exhausted), s).
Proof.
  intros H depth fuel.
  destruct (sum_raises_when_number_fails recursion_error s f H depth fuel)
    as [f' E].
  simpl. apply sum_of_raise. now apply value_of_raises with f f'.
Qed.




(** The same happens at the end of the input and after an operand that is
    followed at once by an operator. *)
Example expression_raises_empty (recursion_error : failure) (depth fuel : nat) :
  expression recursion_error (S depth) fuel (StringIO "")
    = (Raise (NoMatch exhausted), StringIO "").
Proof.
  now apply sum_exhausted with EndOfInput.
Qed.

Example expression_raises_1_plus_2 (recursion_error : failure) (depth fuel : nat) :
  expression recursion_error (S depth) fuel (StringIO "1+2")
    = (Raise (NoMatch exhausted), StringIO "1+2").
Proof.
  now apply sum_exhausted with (NoMatch (CouldNotMatch "+")).
Qed.

(** ** The loops of the lexical parsers end

    [number] and [whitespace] give their loops one round more than there are
    characters left; no round is missing: neither parser runs out of fuel. *)

Lemma substring_one (b : string) :
  forall p,
    (substring p 1 b = "" /\ String.length b <= p) \/
    (exists c, substring p 1 b = String c "" /\ p < String.length b).
Proof.
  induction b as [|c b IH]; intros p.
  - left. split; [now destruct p|simpl; lia].
  - destruct p as [|p]; simpl.
    + right. exists c. split; [now destruct b|lia].
    + destruct (IH p) as [[H1 H2]|[c' [H1 H2]]].
      * left. split; [assumption|lia].
      * right. exists c'. split; [assumption|lia].
Qed.

Lemma number_more_total (fuel : nat) :
  forall digits s,
    left_to_read s < fuel -> fst (number_more fuel digits s) <> OutOfFuel.
Proof.
  induction fuel as [|fuel IH]; intros digits s Hfuel; [lia|].
  simpl. unfold bind at 1. unfold try_except. unfold bind at 1.
  rewrite match_unfold. cbv zeta.
  destruct (substring_one (buffer s) (position s)) as [[Hr Hp]|[c [Hr Hp]]];
    rewrite Hr.
  - simpl. discriminate.
  - destruct (isdigit (String c "")) eqn:Hd.
    + unfold ret at 1. apply IH. unfold left_to_read in *. simpl. lia.
    + simpl. unfold bind at 1. rewrite match_unfold. cbv zeta. rewrite Hr.
      destruct (isspace (String c "")); simpl; discriminate.
Qed.

Lemma number_total (s : stream) : fst (number s) <> OutOfFuel.
Proof.
  unfold number, rollback.
  unfold bind at 1. unfold tell, try_except. unfold bind at 1.
  rewrite match_unfold. cbv zeta.
  destruct (isdigit _).
  - unfold bind at 1. unfold remaining at 1. unfold bind at 1.
    match goal with
    | |- context [number_more ?n ?d ?t] =>
        pose proof (number_more_total n d t) as Hn;
        destruct (number_more n d t) as [[digits|f|] t'] eqn:E
    end.
    + destruct (int digits); simpl; discriminate.
    + destruct f; simpl; discriminate.
    + exfalso. apply Hn; [unfold left_to_read; simpl; lia|reflexivity].
  - destruct (nonempty _); simpl; discriminate.
Qed.

Lemma whitespace_more_total (fuel : nat) :
  forall found s,
    left_to_read s < fuel -> fst (whitespace_more fuel found s) <> OutOfFuel.
Proof.
  induction fuel as [|fuel IH]; intros found s Hfuel; [lia|].
  simpl. unfold bind at 1. unfold try_except. unfold bind at 1.
  rewrite match_unfold. cbv zeta.
  destruct (substring_one (buffer s) (position s)) as [[Hr Hp]|[c [Hr Hp]]];
    rewrite Hr.
  - simpl. discriminate.
  - destruct (isspace (String c "")) eqn:Hd.
    + unfold ret at 1. apply IH. unfold left_to_read in *. simpl. lia.
    + simpl. discriminate.
Qed.

Lemma whitespace_minimum_total (count : nat) :
  forall found s, fst (whitespace_minimum count found s) <> OutOfFuel.
Proof.
  induction count as [|count IH]; intros found s; [simpl; discriminate|].
  simpl. unfold bind at 1. rewrite match_unfold. cbv zeta.
  destruct (isspace _); [apply IH|].
  destruct (nonempty _); simpl; discriminate.
Qed.

Lemma whitespace_total (minimum_count : nat) (s : stream) :
  fst (whitespace minimum_count s) <> OutOfFuel.
Proof.
  unfold whitespace, rollback.
  unfold bind at 1. unfold tell, try_except at 1. unfold bind at 1.
  unfold try_except.
  pose proof (whitespace_minimum_total minimum_count "" s) as Hm.
  destruct (whitespace_minimum minimum_count "" s) as [[required|f|] s1];
    [|simpl; discriminate|now exfalso].
  unfold bind at 1. unfold remaining at 1. unfold bind at 1.
  match goal with
  | |- context [whitespace_more ?n ?d ?t] =>
      pose proof (whitespace_more_total n d t) as Hn;
      destruct (whitespace_more n d t) as [[found|f|] t'] eqn:E
  end.
  - simpl; discriminate.
  - destruct f; simpl; discriminate.
  - exfalso. apply Hn; [unfold left_to_read; simpl; lia|reflexivity].
Qed.

(** ** The stream as the text that is left *)

Lemma substring_1_drop (b : string) :
  forall p,
    substring p 1 b =
      match drop p b with
      | EmptyString => EmptyString
      | String c _ => String c EmptyString
      end.
Proof.
  induction b as [|c b IH]; intros [|p]; simpl; try reflexivity.
  - now destruct b.
  - apply IH.
Qed.

Lemma drop_next (b : string) :
  forall p c r, drop p b = String c r -> drop (S p) b = r.
Proof.
  induction b as [|c0 b IH]; intros [|p] c r H; simpl in *; try discriminate.
  - now inversion H.
  - destruct b as [|c1 b']; [destruct p; discriminate|].
    now apply IH in H.
Qed.

Lemma drop_add (b : string) :
  forall p k, drop (p + k) b = drop k (drop p b).
Proof.
  induction b as [|c b IH]; intros [|p] k; simpl; try reflexivity.
  - now destruct k.
  - apply IH.
Qed.

Lemma drop_length (b : string) :
  forall p, String.length (drop p b) = String.length b - p.
Proof.
  induction b as [|c b IH]; intros [|p]; simpl; auto.
Qed.

Lemma rest_length (s : stream) : String.length (rest s) = left_to_read s.
Proof. apply drop_length. Qed.

Lemma rest_advance (k : nat) (s : stream) : rest (advance k s) = drop k (rest s).
Proof. apply drop_add. Qed.

Lemma advance_0 (s : stream) : advance 0 s = s.
Proof. unfold advance. now rewrite Nat.add_0_r, stream_eta. Qed.

Lemma advance_advance (j k : nat) (s : stream) :
  advance k (advance j s) = advance (j + k) s.
Proof. unfold advance. simpl. now rewrite Nat.add_assoc. Qed.

Lemma append_empty_r (a : string) : a ++ "" = a.
Proof. induction a as [|c a IH]; simpl; [reflexivity|now rewrite IH]. Qed.

Lemma append_char_assoc (a : string) (c : ascii) (b : string) :
  (a ++ String c "") ++ b = a ++ String c b.
Proof. induction a as [|c0 a IH]; simpl; [reflexivity|now rewrite IH]. Qed.

(** [match] with a test of one character, read off the text that is left. *)
Lemma match_rest (cls : ascii -> bool) (rb : bool) (s : stream) :
  match_ (fun a => nonempty a && all_chars cls a) rb s =
    match rest s with
    | EmptyString => (Raise EndOfInput, s)
    | String c _ =>
        if cls c then (Ok (String c ""), if rb then s else advance 1 s)
        else (Raise (NoMatch (CouldNotMatch (String c ""))), s)
    end.
Proof.
  rewrite match_unfold. cbv zeta. rewrite substring_1_drop. fold (rest s).
  destruct (rest s) as [|c r]; simpl.
  - now rewrite Nat.add_0_r, stream_eta.
  - rewrite andb_true_r. destruct (cls c); reflexivity.
Qed.

Lemma match_isdigit (rb : bool) (s : stream) :
  match_ isdigit rb s =
    match rest s with
    | EmptyString => (Raise EndOfInput, s)
    | String c _ =>
        if char_isdigit c then (Ok (String c ""), if rb then s else advance 1 s)
        else (Raise (NoMatch (CouldNotMatch (String c ""))), s)
    end.
Proof. exact (match_rest char_isdigit rb s). Qed.

Lemma match_isspace (rb : bool) (s : stream) :
  match_ isspace rb s =
    match rest s with
    | EmptyString => (Raise EndOfInput, s)
    | String c _ =>
        if char_isspace c then (Ok (String c ""), if rb then s else advance 1 s)
        else (Raise (NoMatch (CouldNotMatch (String c ""))), s)
    end.
Proof. exact (match_rest char_isspace rb s). Qed.

Lemma match_isalpha (rb : bool) (s : stream) :
  match_ isalpha rb s =
    match rest s with
    | EmptyString => (Raise EndOfInput, s)
    | String c _ =>
        if char_isalpha c then (Ok (String c ""), if rb then s else advance 1 s)
        else (Raise (NoMatch (CouldNotMatch (String c ""))), s)
    end.
Proof. exact (match_rest char_isalpha rb s). Qed.

Lemma match_isalnum (rb : bool) (s : stream) :
  match_ isalnum rb s =
    match rest s with
    | EmptyString => (Raise EndOfInput, s)
    | String c _ =>
        if char_isalnum c then (Ok (String c ""), if rb then s else advance 1 s)
        else (Raise (NoMatch (CouldNotMatch (String c ""))), s)
    end.
Proof. exact (match_rest char_isalnum rb s). Qed.

(** ** What the loops of [number] and [name] compute

    The loop takes the longest run of characters of its class; it returns
    when the run is followed by the end of the input or by white space, and
    raises for the character after the run otherwise. *)

Ltac more_step match_lemma cls s c IH R :=
  cbv zeta; simpl number_more; simpl name_more;
  unfold bind at 1; unfold try_except; unfold bind at 1;
  rewrite match_lemma, R;
  simpl take_while;
  destruct (cls c) eqn:?;
  [ unfold ret at 1;
    rewrite IH by (rewrite (rest_advance 1 s), R; simpl in *; lia);
    cbv zeta; rewrite (rest_advance 1 s), R; simpl drop;
    rewrite advance_advance, append_char_assoc; reflexivity
  | change (String.length "") with 0; rewrite advance_0, R;
    cbv iota beta; unfold bind at 1; rewrite match_isspace, R;
    simpl; destruct (char_isspace c); simpl;
    rewrite ?append_empty_r; reflexivity ].

Lemma number_more_run (fuel : nat) :
  forall digits s,
    String.length (rest s) < fuel ->
    let run := take_while char_isdigit (rest s) in
    let s' := advance (String.length run) s in
    number_more fuel digits s =
      if blocked (rest s') then
        (Raise (NoMatch (CouldNotMatch (take 1 (rest s')))), s')
      else (Ok (digits ++ run), s').
Proof.
  induction fuel as [|fuel IH]; intros digits s Hfuel; [lia|].
  destruct (rest s) as [|c r] eqn:R.
  - cbv zeta. simpl.
    unfold bind at 1. unfold try_except. unfold bind at 1.
    rewrite match_isdigit, R. simpl.
    now rewrite advance_0, R, append_empty_r.
  - more_step match_isdigit char_isdigit s c IH R.
Qed.

Lemma name_more_run (fuel : nat) :
  forall letters s,
    String.length (rest s) < fuel ->
    let run := take_while char_isalnum (rest s) in
    let s' := advance (String.length run) s in
    name_more fuel letters s =
      if blocked (rest s') then
        (Raise (NoMatch (CouldNotMatch (take 1 (rest s')))), s')
      else (Ok (letters ++ run), s').
Proof.
  induction fuel as [|fuel IH]; intros letters s Hfuel; [lia|].
  destruct (rest s) as [|c r] eqn:R.
  - cbv zeta. simpl.
    unfold bind at 1. unfold try_except. unfold bind at 1.
    rewrite match_isalnum, R. simpl.
    now rewrite advance_0, R, append_empty_r.
  - more_step match_isalnum char_isalnum s c IH R.
Qed.

(** [number] and [name], read off the text that is left. *)
Lemma number_run (s : stream) :
  number s =
    match rest s with
    | EmptyString => (Raise EndOfInput, s)
    | String c _ =>
        let run := take_while char_isdigit (rest s) in
        let s' := advance (String.length run) s in
        if char_isdigit c then
          if blocked (rest s') then
            (Raise (NoMatch (CouldNotMatch (take 1 (rest s')))), s)
          else
            match int run with
            | Some z => (Ok (VInt z), s')
            | None => (Raise (NoMatch (InvalidLiteral run)), s)
            end
        else (Raise (NoMatch (CouldNotMatch (String c ""))), s)
    end.
Proof.
  unfold number, rollback.
  unfold bind at 1. unfold tell, try_except. unfold bind at 1.
  rewrite match_isdigit.
  destruct (rest s) as [|c r] eqn:R; [reflexivity|].
  cbv zeta. simpl take_while.
  destruct (char_isdigit c) eqn:D.
  - unfold bind at 1. unfold remaining at 1. unfold bind at 1.
    rewrite number_more_run by (rewrite rest_length; lia).
    cbv zeta. rewrite (rest_advance 1 s), R. simpl drop.
    rewrite advance_advance.
    change (1 + String.length (take_while char_isdigit r))
      with (String.length (String c (take_while char_isdigit r))).
    change (String c "" ++ take_while char_isdigit r)
      with (String c (take_while char_isdigit r)).
    destruct (blocked _).
    + unfold bind, seek, raise. simpl. now rewrite stream_eta.
    + destruct (int _); [reflexivity|].
      unfold bind, seek, raise. simpl. now rewrite stream_eta.
  - unfold bind, seek, raise. simpl. now rewrite stream_eta.
Qed.

Lemma name_run (s : stream) :
  name s =
    match rest s with
    | EmptyString => (Raise EndOfInput, s)
    | String c r =>
        let run := String c (take_while char_isalnum r) in
        let s' := advance (String.length run) s in
        if char_isalpha c then
          if blocked (rest s') then
            (Raise (NoMatch (CouldNotMatch (take 1 (rest s')))), s)
          else (Ok (VStr run), s')
        else (Raise (NoMatch (CouldNotMatch (String c ""))), s)
    end.
Proof.
  unfold name, rollback.
  unfold bind at 1. unfold tell, try_except. unfold bind at 1.
  rewrite match_isalpha.
  destruct (rest s) as [|c r] eqn:R; [reflexivity|].
  cbv zeta.
  destruct (char_isalpha c) eqn:D.
  - unfold bind at 1. unfold remaining at 1. unfold bind at 1.
    rewrite name_more_run by (rewrite rest_length; lia).
    cbv zeta. rewrite (rest_advance 1 s), R. simpl drop.
    rewrite advance_advance.
    change (1 + String.length (take_while char_isalnum r))
      with (String.length (String c (take_while char_isalnum r))).
    change (String c "" ++ take_while char_isalnum r)
      with (String c (take_while char_isalnum r)).
    destruct (blocked _).
    + unfold bind, seek, raise. simpl. now rewrite stream_eta.
    + reflexivity.
  - unfold bind, seek, raise. simpl. now rewrite stream_eta.
Qed.

Lemma at_end_rest (s : stream) : at_end s <-> rest s = "".
Proof.
  unfold at_end. pose proof (rest_length s) as H. unfold left_to_read in H.
  split; intros E.
  - destruct (rest s); [reflexivity|simpl in H; lia].
  - rewrite E in H. simpl in H. lia.
Qed.

(** The docstrings of [name], [concatenation] and [alternation]. *)
Example name_a :
  name (StringIO "a ") = (Ok (VStr "a"), mkStream "a " 1).
Proof. reflexivity. Qed.

Example name_123k :
  name (StringIO "123k 123")
    = (Raise (NoMatch (CouldNotMatch "1")), StringIO "123k 123").
Proof. reflexivity. Qed.

Example concatenation_123_123_bravo :
  concatenation [number; whitespace 0; number; whitespace 0; name]
    (StringIO "123 123 bravo")
    = (Ok (VList [VInt 123; VStr " "; VInt 123; VStr " "; VStr "bravo"]),
       mkStream "123 123 bravo" 13).
Proof. reflexivity. Qed.

Example alternation_bravo :
  alternation [number; name] (StringIO "bravo")
    = (Ok (VStr "bravo"), mkStream "bravo" 5).
Proof. reflexivity. Qed.

Example alternation_123 :
  alternation [number; name] (StringIO "123") = (Ok (VInt 123), mkStream "123" 3).
Proof. reflexivity. Qed.

(** ** What [whitespace] computes *)

Lemma whitespace_minimum_run (count : nat) :
  forall found s,
    let run := take_while char_isspace (rest s) in
    (count <= String.length run ->
     whitespace_minimum count found s
       = (Ok (found ++ take count (rest s)), advance count s)) /\
    (String.length run < count ->
     exists f s1,
       whitespace_minimum count found s = (Raise f, s1) /\ buffer s1 = buffer s).
Proof.
  induction count as [|count IH]; intros found s; cbv zeta.
  - split; [|lia]. intros _. simpl.
    destruct (rest s); simpl; now rewrite append_empty_r, advance_0.
  - assert (E : whitespace_minimum (S count) found s =
                match match_ isspace false s with
                | (Ok c, s') => whitespace_minimum count (found ++ c) s'
                | (Raise f, s') => (Raise f, s')
                | (OutOfFuel, s') => (OutOfFuel, s')
                end) by reflexivity.
    rewrite E, match_isspace. clear E.
    destruct (rest s) as [|c r] eqn:R; simpl take_while.
    + split; [simpl; lia|]. intros _. now exists EndOfInput, s.
    + destruct (char_isspace c) eqn:D.
      * destruct (IH (found ++ String c "") (advance 1 s)) as [IH1 IH2].
        rewrite (rest_advance 1 s), R in IH1, IH2. simpl drop in IH1, IH2.
        split; intros H; simpl in H.
        -- rewrite IH1 by lia.
           now rewrite advance_advance, append_char_assoc.
        -- destruct IH2 as (f & s1 & E & B); [lia|].
           exists f, s1. split; assumption.
      * split; [simpl; lia|]. intros _.
        now exists (NoMatch (CouldNotMatch (String c ""))), s.
Qed.

Lemma whitespace_more_run (fuel : nat) :
  forall found s,
    String.length (rest s) < fuel ->
    let run := take_while char_isspace (rest s) in
    whitespace_more fuel found s
      = (Ok (found ++ run), advance (String.length run) s).
Proof.
  induction fuel as [|fuel IH]; intros found s Hfuel; [lia|].
  cbv zeta. simpl whitespace_more.
  unfold bind at 1. unfold try_except. unfold bind at 1.
  rewrite match_isspace.
  destruct (rest s) as [|c r] eqn:R; simpl take_while.
  - simpl. now rewrite advance_0, append_empty_r.
  - destruct (char_isspace c) eqn:D.
    + unfold ret at 1.
      rewrite IH by (rewrite (rest_advance 1 s), R; simpl in *; lia).
      cbv zeta. rewrite (rest_advance 1 s), R. simpl drop.
      now rewrite advance_advance, append_char_assoc.
    + simpl. now rewrite advance_0, append_empty_r.
Qed.

Lemma take_while_split (f : ascii -> bool) (r : string) :
  forall count,
    count <= String.length (take_while f r) ->
    take count r ++ take_while f (drop count r) = take_while f r /\
    count + String.length (take_while f (drop count r))
      = String.length (take_while f r).
Proof.
  induction r as [|c r IH]; intros [|count] H; simpl in *; auto; try lia.
  destruct (f c) eqn:D; simpl in H; [|lia].
  destruct (IH count) as [E L]; [lia|].
  split; [now rewrite E|now rewrite L].
Qed.

Lemma whitespace_run (minimum_count : nat) (s : stream) :
  let run := take_while char_isspace (rest s) in
  whitespace minimum_count s =
    if (minimum_count <=? String.length run)%nat
    then (Ok (VStr run), advance (String.length run) s)
    else (Raise (NoMatch not_enough_whitespace), s).
Proof.
  cbv zeta. unfold whitespace, rollback.
  unfold bind at 1. unfold tell, try_except at 1. unfold bind at 1.
  unfold try_except.
  destruct (whitespace_minimum_run minimum_count "" s) as [Hok Hfail].
  destruct (minimum_count <=? _)%nat eqn:E.
  - apply Nat.leb_le in E. rewrite (Hok E).
    unfold bind at 1. unfold remaining at 1. unfold bind at 1.
    rewrite whitespace_more_run by (rewrite rest_length; lia).
    cbv zeta. rewrite rest_advance, advance_advance.
    destruct (take_while_split char_isspace (rest s) minimum_count E) as [Et El].
    simpl. now rewrite Et, El.
  - apply Nat.leb_gt in E. destruct (Hfail E) as (f & s1 & Er & B).
    rewrite Er. unfold bind, seek, raise. simpl. now rewrite B, stream_eta.
Qed.

(** X1: [whitespace(minimum_count)] succeeds exactly when at least
    [minimum_count] white-space characters stand at the offset; it then
    returns the whole run of white space, not only the required part, and
    leaves the offset right after the run.  Otherwise it raises
    [NoMatch "Not enough whitespace to match."], also at the end of the
    input, and the stream is as it was. *)
Theorem whitespace_whole_run (minimum_count : nat) (s : stream) :
  let run := take_while char_isspace (rest s) in
  (minimum_count <= String.length run ->
   whitespace minimum_count s = (Ok (VStr run), advance (String.length run) s)) /\
  (String.length run < minimum_count ->
   whitespace minimum_count s = (Raise (NoMatch not_enough_whitespace), s)).
Proof.
  cbv zeta. rewrite whitespace_run. cbv zeta. split; intros H.
  - apply Nat.leb_le in H. now rewrite H.
  - apply Nat.leb_gt in H. now rewrite H.
Qed.

Lemma whitespace_whole_run_witness :
  whitespace 1 (mkStream "a   b" 1) = (Ok (VStr "   "), mkStream "a   b" 4) /\
  whitespace 1 (mkStream "ab" 2) = (Raise (NoMatch not_enough_whitespace), mkStream "ab" 2).
Proof.
  split.
  - apply (proj1 (whitespace_whole_run 1 (mkStream "a   b" 1))). simpl; lia.
  - apply (proj2 (whitespace_whole_run 1 (mkStream "ab" 2))). simpl; lia.
Defined.

(** ** Integer literals and identifiers *)

(** X2: [number] succeeds exactly when the longest run of digit characters
    at the offset is not empty, is followed by the end of the input or by a
    white-space character, and is accepted by [int]; it then returns that
    integer and leaves the offset right after the run. *)
Theorem number_success (s s' : stream) (v : pyval) :
  number s = (Ok v, s') <->
  exists z,
    let run := take_while char_isdigit (rest s) in
    run <> "" /\
    blocked (drop (String.length run) (rest s)) = false /\
    int run = Some z /\
    v = VInt z /\
    s' = advance (String.length run) s.
Proof.
  rewrite number_run. cbv zeta. rewrite rest_advance.
  destruct (rest s) as [|c r] eqn:R.
  - split; [discriminate|]. intros (z & H & _). now elim H.
  - simpl take_while. destruct (char_isdigit c) eqn:D.
    + destruct (blocked _) eqn:B.
      * split; [discriminate|]. intros (z & _ & H & _). discriminate.
      * destruct (int _) as [z|] eqn:I.
        -- split.
           ++ intros H; inversion H; subst. exists z.
              repeat split; auto. discriminate.
           ++ intros (z' & _ & _ & Hz & Hv & Hs). congruence.
        -- split; [discriminate|]. intros (z' & _ & _ & Hz & _). discriminate.
    + split; [discriminate|]. intros (z & H & _). now elim H.
Qed.

Lemma number_success_witness :
  number (StringIO "42 x") = (Ok (VInt 42), mkStream "42 x" 2).
Proof.
  apply (proj2 (number_success (StringIO "42 x") (mkStream "42 x" 2) (VInt 42))).
  exists 42%Z. cbv zeta. repeat split; try reflexivity. discriminate.
Defined.

(** X3: when the run of digits at the offset is followed at once by a
    character that is not white space (an operator, a letter), [number]
    raises [NoMatch] for that character and the stream is as it was: the
    digits are not returned. *)
Theorem number_blocked (s : stream) :
  let run := take_while char_isdigit (rest s) in
  let after := drop (String.length run) (rest s) in
  run <> "" ->
  blocked after = true ->
  number s = (Raise (NoMatch (CouldNotMatch (take 1 after))), s).
Proof.
  cbv zeta. intros Hrun Hb. rewrite number_run. cbv zeta. rewrite rest_advance.
  destruct (rest s) as [|c r] eqn:R; [now elim Hrun|].
  simpl take_while in *. destruct (char_isdigit c); [|now elim Hrun].
  now rewrite Hb.
Qed.

Lemma number_blocked_witness :
  number (StringIO "7*8") = (Raise (NoMatch (CouldNotMatch "*")), StringIO "7*8").
Proof.
  apply (number_blocked (StringIO "7*8")); [discriminate|reflexivity].
Defined.

(** X4: [number] raises [EndOfInput] exactly when it is called at the end of
    the input; every other failure of [number] is a [NoMatch]. *)
Theorem number_EndOfInput (s : stream) :
  fst (number s) = Raise EndOfInput <-> at_end s.
Proof.
  rewrite at_end_rest, number_run. cbv zeta.
  destruct (rest s) as [|c r]; [now split|].
  split; [|discriminate].
  destruct (char_isdigit c); [|discriminate].
  destruct (blocked _); [discriminate|].
  destruct (int _); discriminate.
Qed.

Lemma number_EndOfInput_witness :
  fst (number (mkStream "12" 2)) = Raise EndOfInput.
Proof.
  apply (proj2 (number_EndOfInput (mkStream "12" 2))).
  unfold at_end; simpl; lia.
Defined.

(** X5: [name] succeeds exactly when an alphabetic character stands at the
    offset and the run of alphanumeric characters after it is followed by
    the end of the input or by a white-space character; it then returns the
    character and the run and leaves the offset right after them. *)
Theorem name_success (s s' : stream) (v : pyval) :
  name s = (Ok v, s') <->
  exists c r,
    let run := String c (take_while char_isalnum r) in
    rest s = String c r /\
    char_isalpha c = true /\
    blocked (drop (String.length run) (rest s)) = false /\
    v = VStr run /\
    s' = advance (String.length run) s.
Proof.
  rewrite name_run. cbv zeta.
  destruct (rest s) as [|c r] eqn:R.
  - split; [discriminate|]. intros (c & r & H & _). discriminate.
  - rewrite rest_advance, R. destruct (char_isalpha c) eqn:D.
    + destruct (blocked _) eqn:B.
      * split; [discriminate|].
        intros (c' & r' & H & _ & Hb & _). inversion H; subst. congruence.
      * split.
        -- intros H; inversion H; subst. exists c, r. repeat split; auto.
        -- intros (c' & r' & H & _ & _ & Hv & Hs). inversion H; subst.
           reflexivity.
    + split; [discriminate|].
      intros (c' & r' & H & Ha & _). inversion H; subst. congruence.
Qed.

Lemma name_success_witness :
  name (StringIO "x1 y") = (Ok (VStr "x1"), mkStream "x1 y" 2).
Proof.
  apply (proj2 (name_success (StringIO "x1 y") (mkStream "x1 y" 2) (VStr "x1"))).
  exists "x"%char, "1 y". cbv zeta. repeat split; reflexivity.
Defined.

Lemma number_restores : restores number.
Proof.
  intros s f s'. rewrite number_run. cbv zeta.
  destruct (rest s) as [|c r]; [intros H; now inversion H|].
  destruct (char_isdigit c); [|intros H; now inversion H].
  destruct (blocked _); [intros H; now inversion H|].
  destruct (int _); [discriminate|intros H; now inversion H].
Qed.

Lemma name_restores : restores name.
Proof.
  intros s f s'. rewrite name_run. cbv zeta.
  destruct (rest s) as [|c r]; [intros H; now inversion H|].
  destruct (char_isalpha c); [|intros H; now inversion H].
  destruct (blocked _); [intros H; now inversion H|discriminate].
Qed.

Lemma whitespace_restores (minimum_count : nat) : restores (whitespace minimum_count).
Proof.
  intros s f s'. rewrite whitespace_run. cbv zeta.
  destruct (_ <=? _)%nat; [discriminate|intros H; now inversion H].
Qed.

(** X6: each of the four lexical parsers leaves the stream exactly as it
    found it whenever it raises, for [EndOfInput] as well as for [NoMatch]. *)
Theorem lexical_parsers_restore :
  (forall s f s', number s = (Raise f, s') -> s' = s) /\
  (forall s f s', name s = (Raise f, s') -> s' = s) /\
  (forall value s f s', keyword value s = (Raise f, s') -> s' = s) /\
  (forall minimum_count s f s',
     whitespace minimum_count s = (Raise f, s') -> s' = s).
Proof.
  split; [exact number_restores|].
  split; [exact name_restores|].
  split; [exact keyword_restores|exact whitespace_restores].
Qed.

Lemma lexical_parsers_restore_witness :
  snd (number (mkStream "x 12+" 2)) = mkStream "x 12+" 2 /\
  snd (name (mkStream "ab-c" 0)) = mkStream "ab-c" 0 /\
  snd (keyword "abc" (mkStream "xab" 1)) = mkStream "xab" 1 /\
  snd (whitespace 3 (mkStream "a  b" 1)) = mkStream "a  b" 1.
Proof.
  destruct lexical_parsers_restore as (Hn & Ha & Hk & Hw).
  split; [|split; [|split]].
  - apply (Hn (mkStream "x 12+" 2) (NoMatch (CouldNotMatch "+"))). reflexivity.
  - apply (Ha (mkStream "ab-c" 0) (NoMatch (CouldNotMatch "-"))). reflexivity.
  - apply (Hk "abc" (mkStream "xab" 1) (NoMatch (ExpectedToMatch "ab" "abc"))).
    reflexivity.
  - apply (Hw 3 (mkStream "a  b" 1) (NoMatch not_enough_whitespace)). reflexivity.
Defined.

(** ** Sequence *)

Lemma concatenation_items_cons (parser : Parser) (parsers : list Parser) (s : stream) :
  concatenation_items (parser :: parsers) s =
    match parser s with
    | (Ok v, s1) =>
        match concatenation_items parsers s1 with
        | (Ok vs, s') => (Ok (v :: vs), s')
        | (Raise f, s') => (Raise f, s')
        | (OutOfFuel, s') => (OutOfFuel, s')
        end
    | (Raise f, s1) => (Raise f, s1)
    | (OutOfFuel, s1) => (OutOfFuel, s1)
    end.
Proof.
  simpl. unfold bind at 1. destruct (parser s) as [[v|f|] s1]; reflexivity.
Qed.

Lemma concatenation_unfold (parsers : list Parser) (s : stream) :
  concatenation parsers s =
    match concatenation_items parsers s with
    | (Ok vs, s') => (Ok (VList vs), s')
    | (Raise f, s') => (Raise f, s')
    | (OutOfFuel, s') => (OutOfFuel, s')
    end.
Proof. reflexivity. Qed.

Lemma concatenation_items_ok (parsers : list Parser) :
  forall s vs s',
    concatenation_items parsers s = (Ok vs, s') <-> in_sequence parsers s vs s'.
Proof.
  induction parsers as [|parser parsers IH]; intros s vs s'.
  - split.
    + intros H; inversion H; subst. constructor.
    + intros H; inversion H; subst. reflexivity.
  - rewrite concatenation_items_cons. split.
    + destruct (parser s) as [[v|f|] s1] eqn:E; try discriminate.
      destruct (concatenation_items parsers s1) as [[vs1|f|] s2] eqn:E1;
        try discriminate.
      intros H; inversion H; subst.
      apply in_sequence_cons with s1; [assumption|now apply IH].
    + intros H; inversion H; subst.
      match goal with
      | Hp : parser s = _, Hs : in_sequence parsers _ _ _ |- _ =>
          rewrite Hp; apply IH in Hs; now rewrite Hs
      end.
Qed.

Lemma in_sequence_length (parsers : list Parser) (s : stream) (vs : list pyval) (s' : stream) :
  in_sequence parsers s vs s' -> length vs = length parsers.
Proof. induction 1; simpl; auto. Qed.

(** X7: [concatenation] returns exactly when every parser of the list
    succeeds, each one starting where the one before it stopped; the result
    is the list of their results, one per parser and in their order, and the
    stream is where the last parser left it. *)
Theorem concatenation_success (parsers : list Parser) (s s' : stream) (v : pyval) :
  concatenation parsers s = (Ok v, s') <->
  exists vs,
    v = VList vs /\ in_sequence parsers s vs s' /\ length vs = length parsers.
Proof.
  rewrite concatenation_unfold. split.
  - destruct (concatenation_items parsers s) as [[vs|f|] s1] eqn:E;
      try discriminate.
    intros H; inversion H; subst. apply concatenation_items_ok in E.
    exists vs. repeat split; [assumption|]. eapply in_sequence_length; eauto.
  - intros (vs & Hv & Hs & _). apply concatenation_items_ok in Hs.
    now rewrite Hs, Hv.
Qed.

Lemma concatenation_success_witness :
  concatenation [keyword "a"; whitespace 1; name] (StringIO "a  bc")
    = (Ok (VList [VStr "a"; VStr "  "; VStr "bc"]), mkStream "a  bc" 5).
Proof.
  apply (proj2 (concatenation_success [keyword "a"; whitespace 1; name]
                  (StringIO "a  bc") (mkStream "a  bc" 5)
                  (VList [VStr "a"; VStr "  "; VStr "bc"]))).
  exists [VStr "a"; VStr "  "; VStr "bc"].
  split; [reflexivity|split; [|reflexivity]].
  apply in_sequence_cons with (mkStream "a  bc" 1); [reflexivity|].
  apply in_sequence_cons with (mkStream "a  bc" 3); [reflexivity|].
  apply in_sequence_cons with (mkStream "a  bc" 5); [reflexivity|].
  apply in_sequence_nil.
Defined.

(** X8: the first parser of a [concatenation] that raises ends it: its
    failure is the failure of the whole, the parsers after it are not run,
    and the stream stays where the failing parser left it; what the parsers
    before it have read is not given back. *)
Theorem concatenation_first_failure
  (before : list Parser) (parser : Parser) (after : list Parser)
  (s s1 s2 : stream) (vs : list pyval) (f : failure) :
  in_sequence before s vs s1 ->
  parser s1 = (Raise f, s2) ->
  concatenation (before ++ parser :: after) s = (Raise f, s2).
Proof.
  intros Hs Hp. rewrite concatenation_unfold.
  assert (E : concatenation_items (before ++ parser :: after) s = (Raise f, s2)).
  { induction Hs as [s|p ps s v s1 vs s' Hv _ IH]; simpl app.
    - rewrite concatenation_items_cons. now rewrite Hp.
    - rewrite concatenation_items_cons, Hv. now rewrite (IH Hp). }
  now rewrite E.
Qed.

Lemma concatenation_first_failure_witness :
  concatenation [keyword "a"; keyword "b"; number] (StringIO "ac")
    = (Raise (NoMatch (ExpectedToMatch "c" "b")), mkStream "ac" 1).
Proof.
  apply (concatenation_first_failure [keyword "a"] (keyword "b") [number]
           (StringIO "ac") (mkStream "ac" 1) (mkStream "ac" 1) [VStr "a"]).
  - apply in_sequence_cons with (mkStream "ac" 1); [reflexivity|].
    apply in_sequence_nil.
  - reflexivity.
Defined.

(** ** Choice, continued *)

Lemma alternation_raise_inv (parsers : list Parser) :
  forall s s' f,
    alternation parsers s = (Raise f, s') ->
    f = NoMatch exhausted /\ all_fail parsers s s'.
Proof.
  induction parsers as [|parser parsers IH]; intros s s' f.
  - intros H; inversion H; subst. split; [reflexivity|constructor].
  - simpl. unfold try_except.
    destruct (parser s) as [[v|f0|] s1] eqn:E; try discriminate.
    intros H. destruct (IH _ _ _ H) as [Hf Ha].
    split; [assumption|]. now apply all_fail_cons with f0 s1.
Qed.

(** X9: when [alternation] raises, every candidate has raised in turn, and
    the failure is [NoMatch "Exhausted all parsers"] whatever the candidates
    raised: [alternation] never raises [EndOfInput], and the messages of the
    candidates are lost. *)
Theorem alternation_failure (parsers : list Parser) (s s' : stream) (f : failure) :
  alternation parsers s = (Raise f, s') ->
  f = NoMatch (Text "Exhausted all parsers") /\ all_fail parsers s s'.
Proof. apply alternation_raise_inv. Qed.

Lemma alternation_failure_witness :
  alternation [number; name] (StringIO "")
    = (Raise (NoMatch exhausted), StringIO "") /\
  number (StringIO "") = (Raise EndOfInput, StringIO "") /\
  all_fail [number; name] (StringIO "") (StringIO "").
Proof.
  split; [reflexivity|split; [reflexivity|]].
  exact (proj2 (alternation_failure [number; name] (StringIO "") (StringIO "")
                  (NoMatch exhausted) eq_refl)).
Defined.

(** X10: [alternation] over parsers that leave the stream unchanged when
    they raise leaves the stream unchanged when it raises. *)
Theorem alternation_restores (parsers : list Parser) :
  Forall restores parsers -> restores (alternation parsers).
Proof.
  intros Hall s f s' H.
  apply alternation_raise_inv in H. destruct H as [_ Ha].
  induction Ha as [s|parser parsers s f0 s1 s' Hp _ IH]; [reflexivity|].
  inversion Hall as [|? ? Hr Hrs]; subst.
  rewrite (Hr _ _ _ Hp) in IH. now apply IH.
Qed.

Lemma alternation_restores_witness :
  snd (alternation [number; name; keyword "+"] (mkStream "1 -" 2))
    = mkStream "1 -" 2.
Proof.
  apply (alternation_restores [number; name; keyword "+"]
           (Forall_cons _ number_restores
              (Forall_cons _ name_restores
                 (Forall_cons _ (keyword_restores "+") (Forall_nil _))))
           (mkStream "1 -" 2) (NoMatch exhausted)).
  reflexivity.
Defined.

(** ** Consuming the generator of [one_or_more] *)

Lemma next_unfold (parser : Parser) (count : nat) (s : stream) :
  next (mkGen parser count false) s =
    match parser s with
    | (Ok v, s') => (Ok (Some v, mkGen parser (S count) false), s')
    | (Raise _, s') =>
        if (count =? 0)%nat then (Raise (NoMatch expected_one_or_more), s')
        else (Ok (None, mkGen parser count true), s')
    | (OutOfFuel, s') => (OutOfFuel, s')
    end.
Proof.
  unfold next. simpl. unfold bind at 1. unfold try_except. unfold bind at 1.
  destruct (parser s) as [[v|f|] s']; try reflexivity.
  simpl. destruct (count =? 0)%nat; reflexivity.
Qed.

Lemma list_iterates (parser : Parser) (s : stream) (vs : list pyval) (s1 : stream) :
  iterates parser s vs s1 ->
  forall fuel count result f s2,
    parser s1 = (Raise f, s2) ->
    length vs < fuel ->
    list_ fuel (mkGen parser count false) result s =
      if (count + length vs =? 0)%nat
      then (Raise (NoMatch expected_one_or_more), s2)
      else (Ok (result ++ vs)%list, s2).
Proof.
  induction 1 as [s|s v s1 vs s' Hp _ IH]; intros fuel count result f s2 Hf Hlen;
    (destruct fuel as [|fuel]; [simpl in Hlen; lia|]);
    simpl list_; unfold bind at 1; rewrite next_unfold.
  - rewrite Hf. simpl length. rewrite Nat.add_0_r.
    destruct (count =? 0)%nat; [reflexivity|]. simpl. now rewrite app_nil_r.
  - rewrite Hp. rewrite (IH fuel (S count) (result ++ [v])%list f s2 Hf)
      by (simpl in Hlen; lia).
    simpl length. rewrite Nat.add_succ_r. simpl.
    now rewrite <- app_assoc.
Qed.

(** X11: consuming the generator of [one_or_more] with [list] runs the
    parser until its first failure of either kind; after at least one
    success the list of the results is returned, [EndOfInput] included
    (where [zero_or_more] raises); with no success,
    [NoMatch "Expected one or more tokens"] is raised.  Either way the stream
    is where the failing run left it. *)
Theorem list_one_or_more
  (parser : Parser) (fuel : nat) (s s1 s2 : stream) (vs : list pyval) (f : failure) :
  iterates parser s vs s1 ->
  parser s1 = (Raise f, s2) ->
  length vs < fuel ->
  one_or_more parser s = (Ok (VGen parser 0 false), s) /\
  list_ fuel (mkGen parser 0 false) [] s =
    match vs with
    | [] => (Raise (NoMatch (Text "Expected one or more tokens")), s2)
    | _ :: _ => (Ok vs, s2)
    end.
Proof.
  intros Hi Hf Hlen. split; [reflexivity|].
  rewrite (list_iterates parser s vs s1 Hi fuel 0 [] f s2 Hf Hlen).
  destruct vs; reflexivity.
Qed.

Lemma list_one_or_more_witness :
  list_ 2 (mkGen number 0 false) [] (StringIO "7") = (Ok [VInt 7], mkStream "7" 1) /\
  zero_or_more 2 number (StringIO "7") = (Raise EndOfInput, mkStream "7" 1).
Proof.
  split; [|reflexivity].
  refine (proj2 (list_one_or_more number 2 (StringIO "7") (mkStream "7" 1)
                   (mkStream "7" 1) [VInt 7] EndOfInput _ _ _)).
  - apply iterates_cons with (mkStream "7" 1); [reflexivity|].
    apply iterates_nil.
  - reflexivity.
  - simpl; lia.
Defined.

(** ** Loops that have no exit *)

Lemma zero_or_more_loop_no_exit (parser : Parser) :
  never_raises parser ->
  forall fuel result s, fst (zero_or_more_loop fuel parser result s) = OutOfFuel.
Proof.
  intros Hn. induction fuel as [|fuel IH]; intros result s; [reflexivity|].
  rewrite zero_or_more_loop_step. specialize (Hn s).
  destruct (parser s) as [[v|f|] s']; [apply IH|now elim (Hn f)|reflexivity].
Qed.

Lemma whitespace_0_never_raises : never_raises (whitespace 0).
Proof. intros s f. rewrite whitespace_run. simpl. discriminate. Qed.

Lemma maybe_never_raises (parser : Parser) : never_raises (maybe parser).
Proof.
  intros s f. unfold maybe, try_except.
  destruct (parser s) as [[v|f0|] s']; simpl; discriminate.
Qed.

(** X12: [zero_or_more] over a parser that never raises, such as
    [whitespace()] or [maybe(p)], does not return: only a [NoMatch] of the
    inner parser ends the loop, and none comes. *)
Theorem zero_or_more_no_exit (parser : Parser) (fuel : nat) (s : stream) :
  never_raises parser ->
  fst (zero_or_more fuel parser s) = OutOfFuel.
Proof.
  intros Hn. rewrite zero_or_more_unfold.
  pose proof (zero_or_more_loop_no_exit parser Hn fuel [] s) as H.
  destruct (zero_or_more_loop fuel parser [] s) as [[l|f|] s']; try discriminate.
  reflexivity.
Qed.

Lemma zero_or_more_no_exit_witness :
  fst (zero_or_more 1000 (whitespace 0) (StringIO "a")) = OutOfFuel /\
  fst (zero_or_more 1000 (maybe number) (StringIO "12 ")) = OutOfFuel.
Proof.
  split.
  - exact (zero_or_more_no_exit (whitespace 0) 1000 (StringIO "a")
             whitespace_0_never_raises).
  - exact (zero_or_more_no_exit (maybe number) 1000 (StringIO "12 ")
             (maybe_never_raises number)).
Defined.

(** ** The expression grammar, continued *)

Lemma number_outcome (s : stream) :
  (exists z s', number s = (Ok (VInt z), s') /\ blocked (rest s') = false) \/
  (exists f, number s = (Raise f, s)).
Proof.
  rewrite number_run. cbv zeta.
  destruct (rest s) as [|c r]; [right; eauto|].
  destruct (char_isdigit c); [|right; eauto].
  destruct (blocked _) eqn:B; [right; eauto|].
  destruct (int _) as [z|]; [left; eauto|right; eauto].
Qed.

Lemma value_of_number_ok (expression : Parser) (s s' : stream) (v : pyval) :
  number s = (Ok v, s') -> value_of expression s = (Ok v, s').
Proof. intros H. unfold value_of. now apply alternation_ok. Qed.

(** Where [number] raises, [value] raises [NoMatch "Exhausted all parsers"]
    at every call depth, with the stream as it was. *)
Lemma value_of_sum_raises
  (recursion_error : failure) (depth fuel : nat) (s s' : stream) (f : failure) :
  number s = (Raise f, s') ->
  value_of (sum recursion_error depth fuel) s = (Raise (NoMatch exhausted), s).
Proof.
  intros H. rewrite (number_restores _ _ _ H) in H.
  destruct (sum_raises_when_number_fails recursion_error s f H depth fuel)
    as [f' E].
  now apply value_of_raises with f f'.
Qed.

Lemma operators_outcome (a b : string) (s : stream) :
  (exists op s',
     alternation [keyword a; keyword b] s = (Ok (VStr op), s') /\
     (op = a \/ op = b)) \/
  alternation [keyword a; keyword b] s = (Raise (NoMatch exhausted), s).
Proof.
  simpl. unfold try_except. rewrite (keyword_unfold a). cbv zeta.
  destruct (String.eqb a _); [left; eauto|].
  rewrite (keyword_unfold b). cbv zeta.
  destruct (String.eqb b _); [left; eauto|right; reflexivity].
Qed.

Lemma whitespace_0 (s : stream) :
  whitespace 0 s =
    (Ok (VStr (take_while char_isspace (rest s))),
     advance (String.length (take_while char_isspace (rest s))) s).
Proof. now rewrite whitespace_run. Qed.

Lemma take_while_all (f : ascii -> bool) (r : string) :
  all_chars f (take_while f r) = true.
Proof.
  induction r as [|c r IH]; simpl; [reflexivity|].
  destruct (f c) eqn:E; simpl; [now rewrite E|reflexivity].
Qed.

(** Where [number] has stopped, no operator can be read: a keyword of one
    character that is not white space fails there. *)
Lemma keyword_char_blocked (c : ascii) (s : stream) :
  char_isspace c = false ->
  blocked (rest s) = false ->
  exists m, keyword (String c "") s = (Raise (NoMatch m), s).
Proof.
  intros Hc Hb. rewrite keyword_unfold. cbv zeta. simpl String.length.
  rewrite substring_1_drop. fold (rest s).
  destruct (rest s) as [|c0 r]; simpl in Hb; [simpl; eauto|].
  destruct (String.eqb _ _) eqn:E; [|eauto].
  apply String.eqb_eq in E. inversion E; subst.
  rewrite Hc in Hb. discriminate.
Qed.

Lemma operators_blocked (a b : ascii) (s : stream) :
  char_isspace a = false ->
  char_isspace b = false ->
  blocked (rest s) = false ->
  alternation [keyword (String a ""); keyword (String b "")] s
    = (Raise (NoMatch exhausted), s).
Proof.
  intros Ha Hb Hs.
  destruct (keyword_char_blocked a s Ha Hs) as [ma Ea].
  destruct (keyword_char_blocked b s Hb Hs) as [mb Eb].
  rewrite (alternation_raise _ _ _ _ _ Ea), (alternation_raise _ _ _ _ _ Eb).
  reflexivity.
Qed.


(** One round of the loop of [sum]: an operator, white space, an operand. *)
Lemma group_outcome (recursion_error : failure) (depth fuel : nat) (s : stream) :
  match concatenation
          [alternation [keyword "+"; keyword "-"]; whitespace 0;
           value_of (sum recursion_error depth fuel)] s with
  | (Ok g, s') => is_group g /\ blocked (rest s') = false
  | (Raise f, _) => f = NoMatch exhausted
  | (OutOfFuel, _) => False
  end.
Proof.
  rewrite concatenation_unfold, concatenation_items_cons.
  destruct (operators_outcome "+" "-" s) as [(op & s1 & E & Hop)|E]; rewrite E;
    [|reflexivity].
  rewrite concatenation_items_cons, whitespace_0, concatenation_items_cons.
  match goal with |- context [value_of _ ?t] => set (s2 := t) end.
  destruct (number_outcome s2) as [(z & s3 & En & Hb)|(f & En)].
  - rewrite (value_of_number_ok _ _ _ _ En). simpl. split; [|assumption].
    exists op, (take_while char_isspace (rest s1)), z.
    repeat split; [assumption|apply take_while_all].
  - now rewrite (value_of_sum_raises _ _ _ _ _ _ En).
Qed.

(** The loop of [sum]: after one group the stream stands where [number]
    has stopped, and the loop ends. *)
Lemma sum_loop_outcome
  (recursion_error : failure) (depth fuel fuel' : nat) (s : stream) :
  match zero_or_more_loop fuel
          (concatenation
             [alternation [keyword "+"; keyword "-"]; whitespace 0;
              value_of (sum recursion_error depth fuel')]) [] s with
  | (Ok l, _) => Forall is_group l /\ length l <= 1
  | (Raise _, _) => False
  | (OutOfFuel, _) => True
  end.
Proof.
  destruct fuel as [|fuel]; [exact I|].
  rewrite zero_or_more_loop_step.
  pose proof (group_outcome recursion_error depth fuel' s) as G.
  destruct (concatenation _ s) as [[g|f|] s1] eqn:E.
  - destruct G as [Hg Hb]. destruct fuel as [|fuel]; [exact I|].
    rewrite zero_or_more_loop_step.
    rewrite concatenation_unfold, concatenation_items_cons.
    rewrite (operators_blocked "+" "-" s1 eq_refl eq_refl Hb).
    simpl. split; [repeat constructor; assumption|lia].
  - subst f. simpl. split; [constructor|lia].
  - contradiction.
Qed.

(** What one round of [sum] does, by cases on its outcome. *)
Lemma sum_outcome (recursion_error : failure) (depth fuel : nat) (s : stream) :
  match sum recursion_error (S depth) fuel s with
  | (Ok v, _) =>
      exists z s1 w groups,
        number s = (Ok (VInt z), s1) /\
        v = VList [VInt z; VStr w; VList groups] /\
        all_chars char_isspace w = true /\
        Forall is_group groups /\ length groups <= 1
  | (Raise f, s') =>
      f = NoMatch exhausted /\ s' = s /\ exists f0, number s = (Raise f0, s)
  | (OutOfFuel, _) => True
  end.
Proof.
  simpl sum. unfold sum_of.
  rewrite concatenation_unfold, concatenation_items_cons.
  destruct (number_outcome s) as [(z & s1 & En & _)|(f & En)].
  - rewrite (value_of_number_ok _ _ _ _ En).
    rewrite concatenation_items_cons, whitespace_0, concatenation_items_cons.
    rewrite zero_or_more_unfold.
    match goal with
    | |- context [zero_or_more_loop fuel _ [] ?t] =>
        pose proof (sum_loop_outcome recursion_error depth fuel fuel t) as L
    end.
    match goal with
    | |- context [zero_or_more_loop ?n ?p ?r ?t] =>
        destruct (zero_or_more_loop n p r t) as [[l|f|] s3] eqn:El
    end.
    + simpl. exists z, s1, (take_while char_isspace (rest s1)), l.
      destruct L as [L1 L2].
      repeat split; try assumption. apply take_while_all.
    + contradiction.
    + exact I.
  - rewrite (value_of_sum_raises _ _ _ _ _ _ En). repeat split. eauto.
Qed.




(** X14: [expression] raises exactly when [number] raises at the starting
    offset, and what it raises is [NoMatch "Exhausted all parsers"] in every
    case: never [EndOfInput], and never the failure of [number] with the
    character it met. *)
Theorem expression_failure
  (recursion_error : failure) (depth fuel : nat) (s : stream) (f : failure) :
  fst (expression recursion_error (S depth) fuel s) = Raise f <->
  f = NoMatch (Text "Exhausted all parsers") /\
  exists f0, number s = (Raise f0, s).
Proof.
  unfold expression. split.
  - pose proof (sum_outcome recursion_error depth fuel s) as O.
    destruct (sum recursion_error (S depth) fuel s) as [[v|f1|] s'];
      try discriminate.
    simpl. intros H; inversion H; subst. destruct O as (Hf & _ & Hn).
    split; assumption.
  - intros (Hf & f0 & Hn). subst f.
    now rewrite (sum_exhausted recursion_error s f0 Hn depth fuel).
Qed.

Lemma expression_failure_witness :
  fst (expression EndOfInput 1000 3 (StringIO "+")) = Raise (NoMatch exhausted).
Proof.
  apply (proj2 (expression_failure EndOfInput 999 3 (StringIO "+")
                  (NoMatch exhausted))).
  split; [reflexivity|].
  exists (NoMatch (CouldNotMatch "+")). reflexivity.
Defined.

(** X15: a tree that [expression] returns is flat and short: an integer, a
    string of white-space characters, and a list of at most one group, the
    group being an operator ["+"] or ["-"], a string of white-space
    characters and an integer.  No operand is a nested tree, a second
    operator is never read, and the first operand is what [number] reads at
    the starting offset. *)
Theorem expression_tree_flat
  (recursion_error : failure) (depth fuel : nat) (s s' : stream) (v : pyval) :
  expression recursion_error depth fuel s = (Ok v, s') ->
  exists z s1 w groups,
    number s = (Ok (VInt z), s1) /\
    v = VList [VInt z; VStr w; VList groups] /\
    all_chars char_isspace w = true /\
    Forall is_group groups /\ length groups <= 1.
Proof.
  unfold expression. destruct depth as [|depth]; [discriminate|].
  intros H. pose proof (sum_outcome recursion_error depth fuel s) as O.
  now rewrite H in O.
Qed.

Lemma expression_tree_flat_witness :
  expression EndOfInput 4 4 (StringIO "1 - 2 + 3")
    = (Ok (VList [VInt 1; VStr " "; VList [VList [VStr "-"; VStr " "; VInt 2]]]),
       mkStream "1 - 2 + 3" 5) /\
  exists z s1 w groups,
    number (StringIO "1 - 2 + 3") = (Ok (VInt z), s1) /\
    VList [VInt 1; VStr " "; VList [VList [VStr "-"; VStr " "; VInt 2]]]
      = VList [VInt z; VStr w; VList groups] /\
    all_chars char_isspace w = true /\
    Forall is_group groups /\ length groups <= 1.
Proof.
  split; [reflexivity|].
  apply (expression_tree_flat EndOfInput 4 4 (StringIO "1 - 2 + 3")
           (mkStream "1 - 2 + 3" 5)).
  reflexivity.
Defined.




(** The flat grammar on some inputs. *)
Example expression_flat_12_abc :
  expression_flat (StringIO "12 abc")
    = (Ok (VList [VInt 12; VStr " "; VList []]), mkStream "12 abc" 3).
Proof. reflexivity. Qed.

Example expression_flat_chain :
  expression_flat (StringIO "1 - 2 + 3")
    = (Ok (VList [VInt 1; VStr " "; VList [VList [VStr "-"; VStr " "; VInt 2]]]),
       mkStream "1 - 2 + 3" 5).
Proof. reflexivity. Qed.

(** ** The unused rule [product] *)



(** ** The primitive matcher, continued *)

(** X19: with the peek flag, [match] leaves the stream as it found it,
    whatever it returns or raises.  Without it, a success of a predicate
    that rejects the empty string has read exactly one character, the one
    at the offset, and that character passes the predicate. *)
Theorem match_consumption (predicate : string -> bool) (s : stream) :
  snd (match_ predicate true s) = s /\
  (forall c s',
     predicate "" = false ->
     match_ predicate false s = (Ok c, s') ->
     predicate c = true /\ s' = advance 1 s /\
     exists ch r, rest s = String ch r /\ c = String ch "").
Proof.
  split.
  - rewrite match_unfold. cbv zeta. rewrite substring_1_drop. fold (rest s).
    destruct (predicate _); [reflexivity|].
    destruct (rest s); simpl; [|reflexivity].
    now rewrite Nat.add_0_r, stream_eta.
  - intros c s' Hp. rewrite match_unfold. cbv zeta.
    rewrite substring_1_drop. fold (rest s).
    destruct (rest s) as [|ch r].
    + rewrite Hp. simpl. discriminate.
    + destruct (predicate (String ch "")) eqn:E.
      * intros H; inversion H; subst. repeat split; eauto.
      * simpl. discriminate.
Qed.

Lemma match_consumption_witness :
  snd (match_ isspace true (mkStream "a b" 1)) = mkStream "a b" 1 /\
  snd (match_ isdigit false (mkStream "a1b" 1)) = advance 1 (mkStream "a1b" 1).
Proof.
  split.
  - exact (proj1 (match_consumption isspace (mkStream "a b" 1))).
  - exact (proj1 (proj2 (proj2 (match_consumption isdigit (mkStream "a1b" 1))
                           "1" (mkStream "a1b" 2) eq_refl eq_refl))).
Defined.

(** ** Zero or more, continued *)



Lemma zero_or_more_loop_ends (parser : Parser) :
  (forall s v s', parser s = (Ok v, s') -> left_to_read s' < left_to_read s) ->
  (forall s, fst (parser s) <> OutOfFuel) ->
  forall fuel result s,
    left_to_read s < fuel ->
    fst (zero_or_more_loop fuel parser result s) <> OutOfFuel.
Proof.
  intros Hc Ht. induction fuel as [|fuel IH]; intros result s Hfuel; [lia|].
  rewrite zero_or_more_loop_step. specialize (Ht s).
  destruct (parser s) as [[v|[msg|]|] s1] eqn:E; try (simpl; discriminate).
  - apply IH. apply Hc in E. lia.
  - now elim Ht.
Qed.

(** X21: over a parser that always ends and that reads at least one
    character whenever it succeeds, the loop of [zero_or_more] ends: with
    more fuel than there are characters left, [zero_or_more] returns or
    raises. *)
Theorem zero_or_more_ends (parser : Parser) (fuel : nat) (s : stream) :
  (forall s v s', parser s = (Ok v, s') -> left_to_read s' < left_to_read s) ->
  (forall s, fst (parser s) <> OutOfFuel) ->
  left_to_read s < fuel ->
  fst (zero_or_more fuel parser s) <> OutOfFuel.
Proof.
  intros Hc Ht Hfuel. rewrite zero_or_more_unfold.
  pose proof (zero_or_more_loop_ends parser Hc Ht fuel [] s Hfuel) as H.
  destruct (zero_or_more_loop fuel parser [] s) as [[l|f|] s']; simpl;
    [discriminate|discriminate|now elim H].
Qed.

Lemma number_reads (s s' : stream) (v : pyval) :
  number s = (Ok v, s') -> left_to_read s' < left_to_read s.
Proof.
  rewrite number_run. cbv zeta.
  pose proof (rest_length s) as L.
  destruct (rest s) as [|c r] eqn:R; [discriminate|].
  simpl take_while. destruct (char_isdigit c); [|discriminate].
  destruct (blocked _); [discriminate|].
  destruct (int _); [|discriminate].
  intros H; inversion H; subst.
  unfold left_to_read in *. simpl in *. lia.
Qed.

Lemma zero_or_more_ends_witness :
  fst (zero_or_more 6 number (StringIO "12 34")) <> OutOfFuel.
Proof.
  apply (zero_or_more_ends number 6 (StringIO "12 34")).
  - intros t v t' H. exact (number_reads t t' v H).
  - exact number_total.
  - unfold left_to_read; simpl; lia.
Defined.
